(** * Structural statistics of IDAES / Pyomo models

    A shallow embedding of [idaes/core/util/model_statistics.py].

    A Pyomo model is a tree of blocks.  Every block owns variables,
    constraints, objectives, external grey-box blocks and sub-blocks.  The
    functions of [model_statistics.py] walk that tree and build
    [ComponentSet]s (identity-keyed, insertion-ordered sets) or counts.

    Numbers are Python floats in the source; here they are exact rationals
    ([Q]), so rounding is not modelled.  Objects are records that carry an
    identifier field; two references denote the same Python object exactly
    when the records are equal, so a record listed twice models an aliased
    object (a Pyomo [Reference]). *)

From Stdlib Require Import String.
From Stdlib Require Import List Bool Arith ZArith QArith Qabs Qminmax Lia Lqa.
From Stdlib Require Import Permutation.
Import ListNotations.
Close Scope Q_scope.
Local Open Scope list_scope.

Set Implicit Arguments.

(** ** Python exceptions and fallible results *)

Inductive PyExn : Type :=
| AttributeError
| TypeError
| ValueError
| ZeroDivisionError.

Inductive result (A : Type) : Type :=
| Ok (a : A)
| Raise (e : PyExn).

Arguments Ok {A} a.
Arguments Raise {A} e.

Definition bind {A B : Type} (r : result A) (k : A -> result B) : result B :=
  match r with
  | Ok a => k a
  | Raise e => Raise e
  end.

Notation "x <- r ;; k" := (bind r (fun x => k))
  (at level 61, r at next level, right associativity).

(** [except (AttributeError, TypeError, ValueError)] *)
Definition caught (e : PyExn) : bool :=
  match e with
  | AttributeError | TypeError | ValueError => true
  | ZeroDivisionError => false
  end.

(** ** Identity of objects *)

(** [same x y] is Python's [x is y]. *)
Class Identity (A : Type) := same : A -> A -> bool.

Definition Q_same (p q : Q) : bool :=
  Z.eqb (Qnum p) (Qnum q) && Pos.eqb (Qden p) (Qden q).

Definition option_same {A : Type} (eq : A -> A -> bool) (x y : option A) : bool :=
  match x, y with
  | Some a, Some b => eq a b
  | None, None => true
  | _, _ => false
  end.

Section ListSame.
Variable A : Type.
Variable eq : A -> A -> bool.

Fixpoint list_same (l1 l2 : list A) {struct l1} : bool :=
  match l1, l2 with
  | [], [] => true
  | x :: xs, y :: ys => eq x y && list_same xs ys
  | _, _ => false
  end.
End ListSame.

(** ** Data model *)

(** [VarData]: [fixed], [value], [lb], [ub]. *)
Record VarData : Type := mkVar {
  var_id : nat;
  var_fixed : bool;
  var_value : option Q;
  var_lb : option Q;
  var_ub : option Q
}.

#[export] Instance VarData_same : Identity VarData := fun v w =>
  Nat.eqb (var_id v) (var_id w) && Bool.eqb (var_fixed v) (var_fixed w)
  && option_same Q_same (var_value v) (var_value w)
  && option_same Q_same (var_lb v) (var_lb w)
  && option_same Q_same (var_ub v) (var_ub w).

(** Constraint bodies: Pyomo numeric expressions over variables. *)
Inductive Expr : Type :=
| Num (q : Q)
| VarRef (v : VarData)
| Sum (a b : Expr)
| Diff (a b : Expr)
| Prod (a b : Expr)
| Quot (a b : Expr).

Fixpoint Expr_same (e f : Expr) : bool :=
  match e, f with
  | Num p, Num q => Q_same p q
  | VarRef v, VarRef w => same v w
  | Sum a b, Sum c d => Expr_same a c && Expr_same b d
  | Diff a b, Diff c d => Expr_same a c && Expr_same b d
  | Prod a b, Prod c d => Expr_same a c && Expr_same b d
  | Quot a b, Quot c d => Expr_same a c && Expr_same b d
  | _, _ => false
  end.

(** [ConstraintData]: [active], [lower], [upper], [body].  The bounds are
    taken as already evaluated constants, so [value(c.lower)] is [c.lower]. *)
Record ConstraintData : Type := mkCon {
  con_id : nat;
  con_active : bool;
  con_lower : option Q;
  con_upper : option Q;
  con_body : Expr
}.

#[export] Instance ConstraintData_same : Identity ConstraintData := fun c d =>
  Nat.eqb (con_id c) (con_id d) && Bool.eqb (con_active c) (con_active d)
  && option_same Q_same (con_lower c) (con_lower d)
  && option_same Q_same (con_upper c) (con_upper d)
  && Expr_same (con_body c) (con_body d).

Record ObjectiveData : Type := mkObj {
  obj_id : nat;
  obj_active : bool
}.

#[export] Instance ObjectiveData_same : Identity ObjectiveData := fun o p =>
  Nat.eqb (obj_id o) (obj_id p) && Bool.eqb (obj_active o) (obj_active p).

(** The external model behind a grey box: only its equality count is used. *)
Record ExternalGreyBoxModel : Type := mkExternal {
  n_equality_constraints : nat
}.

(** [ExternalGreyBoxBlock]: [inputs] and [outputs] are name-keyed maps of
    variables, kept in key order. *)
Record ExternalGreyBoxBlockData : Type := mkGreyBox {
  gb_id : nat;
  gb_active : bool;
  gb_inputs : list (string * VarData);
  gb_outputs : list (string * VarData);
  get_external_model : ExternalGreyBoxModel
}.

Definition entry_same (p q : string * VarData) : bool :=
  String.eqb (fst p) (fst q) && same (snd p) (snd q).

#[export] Instance GreyBox_same : Identity ExternalGreyBoxBlockData := fun g h =>
  Nat.eqb (gb_id g) (gb_id h) && Bool.eqb (gb_active g) (gb_active h)
  && list_same entry_same (gb_inputs g) (gb_inputs h)
  && list_same entry_same (gb_outputs g) (gb_outputs h)
  && Nat.eqb (n_equality_constraints (get_external_model g))
             (n_equality_constraints (get_external_model h)).

(** A block data object and everything it owns. *)
#[local] Unset Elimination Schemes.
Inductive BlockData : Type :=
| mkBlockData (id : nat) (active : bool)
              (vars : list VarData)
              (constraints : list ConstraintData)
              (objectives : list ObjectiveData)
              (greyboxes : list ExternalGreyBoxBlockData)
              (blocks : list BlockData).
#[local] Set Elimination Schemes.

Definition blk_id (b : BlockData) : nat :=
  match b with mkBlockData i _ _ _ _ _ _ => i end.
Definition blk_active (b : BlockData) : bool :=
  match b with mkBlockData _ a _ _ _ _ _ => a end.
Definition blk_vars (b : BlockData) : list VarData :=
  match b with mkBlockData _ _ v _ _ _ _ => v end.
Definition blk_constraints (b : BlockData) : list ConstraintData :=
  match b with mkBlockData _ _ _ c _ _ _ => c end.
Definition blk_objectives (b : BlockData) : list ObjectiveData :=
  match b with mkBlockData _ _ _ _ o _ _ => o end.
Definition blk_greyboxes (b : BlockData) : list ExternalGreyBoxBlockData :=
  match b with mkBlockData _ _ _ _ _ g _ => g end.
Definition blk_blocks (b : BlockData) : list BlockData :=
  match b with mkBlockData _ _ _ _ _ _ s => s end.

Fixpoint BlockData_same (a b : BlockData) {struct a} : bool :=
  match a, b with
  | mkBlockData i1 a1 v1 c1 o1 g1 s1, mkBlockData i2 a2 v2 c2 o2 g2 s2 =>
      Nat.eqb i1 i2 && Bool.eqb a1 a2
      && list_same same v1 v2 && list_same same c1 c2
      && list_same same o1 o2 && list_same same g1 g2
      && list_same BlockData_same s1 s2
  end.

(** What a caller passes as [block]: a scalar block (or one element of an
    indexed block), or an indexed block, a container with its own [active]
    flag whose [values()] are block data objects. *)
Inductive Block : Type :=
| ScalarBlock (bd : BlockData)
| IndexedBlock (id : nat) (active : bool) (values : list BlockData).

Definition is_indexed (b : Block) : bool :=
  match b with ScalarBlock _ => false | IndexedBlock _ _ _ => true end.

Definition block_active (b : Block) : bool :=
  match b with
  | ScalarBlock bd => blk_active bd
  | IndexedBlock _ a _ => a
  end.

#[export] Instance Block_same : Identity Block := fun a b =>
  match a, b with
  | ScalarBlock x, ScalarBlock y => BlockData_same x y
  | IndexedBlock i a xs, IndexedBlock j b ys =>
      Nat.eqb i j && Bool.eqb a b && list_same BlockData_same xs ys
  | _, _ => false
  end.

(** ** ComponentSet

    Pyomo's [ComponentSet] hashes by object identity and keeps insertion
    order.  It is a list without repetition; [ComponentSet l] is the
    constructor applied to an iterable. *)

Section ComponentSets.
Context {A : Type} `{Identity A}.

Definition contains (s : list A) (x : A) : bool := existsb (same x) s.

Definition add (s : list A) (x : A) : list A :=
  if contains s x then s else s ++ [x].

Definition ComponentSet (l : list A) : list A := fold_left add l [].

(** [s - t] *)
Definition difference (s t : list A) : list A :=
  filter (fun x => negb (contains t x)) s.
End ComponentSets.

(** [sum(1 for _ in gen)] *)
Definition count {A : Type} (gen : list A) : nat := length gen.

(** ** Pyomo traversal *)

(** The [active] argument of Pyomo's walkers: [None] accepts every flag,
    [True]/[False] only an equal one. *)
Definition matches (active : option bool) (flag : bool) : bool :=
  match active with
  | None => true
  | Some a => Bool.eqb flag a
  end.

Arguments matches : simpl never.

(** Modelled from the spec: Pyomo's [BlockData.block_data_objects] with
    [descend_into=True] is not under src/.  Total mode descends into every
    sub-block; activated mode yields a block and descends further only when
    that block is active (spec 4.1).  Prefix order. *)
Fixpoint block_data_objects (active : option bool) (bd : BlockData) {struct bd}
  : list BlockData :=
  match bd with
  | mkBlockData _ a _ _ _ _ subs =>
      if matches active a
      then bd :: flat_map (block_data_objects active) subs
      else []
  end.

(** A component type: where its data objects live in a block and what their
    [active] attribute is (components that cannot be deactivated, such as
    variables, always report [True]). *)
Record CType (A : Type) : Type := mkCType {
  local_components : BlockData -> list A;
  component_active : A -> bool
}.

Definition Var : CType VarData := mkCType blk_vars (fun _ => true).
Definition Constraint : CType ConstraintData := mkCType blk_constraints con_active.
Definition Objective : CType ObjectiveData := mkCType blk_objectives obj_active.
Definition ExternalGreyBoxBlock : CType ExternalGreyBoxBlockData :=
  mkCType blk_greyboxes gb_active.
Definition BlockT : CType BlockData := mkCType blk_blocks blk_active.

(** Modelled from the spec: Pyomo's [BlockData.component_data_objects] is not
    under src/.  It yields the components of kind [ctype] owned by the blocks
    it visits, keeping those whose own flag matches [active] (spec 4.1).  An
    object referenced from two places is yielded at each of them. *)
Definition component_data_objects {A : Type} (bd : BlockData) (ctype : CType A)
    (active : option bool) (descend_into : bool) : list A :=
  flat_map
    (fun b => filter (fun c => matches active (component_active ctype c))
                     (local_components ctype b))
    (if descend_into then block_data_objects active bd
     else if matches active (blk_active bd) then [bd] else []).

(** [_iter_indexed_block_data_objects] *)
Definition _iter_indexed_block_data_objects {A : Type} (block : Block)
    (ctype : CType A) (active : option bool) (descend_into : bool) : list A :=
  match block with
  | IndexedBlock _ _ values =>
      flat_map (fun bd => component_data_objects bd ctype active descend_into) values
  | ScalarBlock bd => component_data_objects bd ctype active descend_into
  end.

(** [activated_block_component_generator] *)
Definition activated_block_component_generator {A : Type} (block : Block)
    (ctype : CType A) : list A :=
  _iter_indexed_block_data_objects block ctype None false
  ++ flat_map (fun b => component_data_objects b ctype None false)
       (_iter_indexed_block_data_objects block BlockT (Some true) true).

(** ** Block methods *)

Definition total_blocks_set (block : Block) : list Block :=
  add (ComponentSet
         (map ScalarBlock (_iter_indexed_block_data_objects block BlockT None true)))
      block.

Definition number_total_blocks (block : Block) : nat :=
  count (_iter_indexed_block_data_objects block BlockT None true) + 1.

Definition activated_blocks_set (block : Block) : list Block :=
  if block_active block
  then fold_left add
         (map ScalarBlock
            (_iter_indexed_block_data_objects block BlockT (Some true) true))
         (add [] block)
  else [].

Definition greybox_block_set (block : Block) : list ExternalGreyBoxBlockData :=
  fold_left add (activated_block_component_generator block ExternalGreyBoxBlock) [].

Definition activated_greybox_block_set (block : Block)
  : list ExternalGreyBoxBlockData :=
  fold_left (fun s g => if gb_active g then add s g else s)
            (greybox_block_set block) [].

Definition deactivated_greybox_block_set (block : Block)
  : list ExternalGreyBoxBlockData :=
  difference (greybox_block_set block) (activated_greybox_block_set block).

Definition number_activated_blocks (block : Block) : nat :=
  if block_active block
  then 1 + count (_iter_indexed_block_data_objects block BlockT (Some true) true)
  else 0.

Definition deactivated_blocks_set (block : Block) : list Block :=
  difference (total_blocks_set block) (activated_blocks_set block).

(** ** Grey-box contributions *)

Definition number_activated_greybox_equalities (block : Block) : nat :=
  fold_left
    (fun equalities g =>
       equalities + length (gb_outputs g)
       + n_equality_constraints (get_external_model g))
    (activated_greybox_block_set block) 0.

Definition number_deactivated_greybox_equalities (block : Block) : nat :=
  fold_left
    (fun equalities g =>
       equalities + length (gb_outputs g)
       + n_equality_constraints (get_external_model g))
    (deactivated_greybox_block_set block) 0.

(** [m[k]] on a name-keyed map *)
Fixpoint getitem (m : list (string * VarData)) (k : string) : option VarData :=
  match m with
  | [] => None
  | (k', v) :: rest => if String.eqb k k' then Some v else getitem rest k
  end.

(** [for k in m: ... m[k] ...] *)
Definition map_values (m : list (string * VarData)) : list VarData :=
  flat_map (fun k => match getitem m k with Some v => [v] | None => [] end)
           (map fst m).

Definition greybox_variables (block : Block) : list VarData :=
  fold_left
    (fun var_set g =>
       fold_left add (map_values (gb_outputs g))
         (fold_left add (map_values (gb_inputs g)) var_set))
    (activated_greybox_block_set block) [].

(** ** Basic constraint methods *)

Definition total_constraints_set (block : Block) : list ConstraintData :=
  ComponentSet (activated_block_component_generator block Constraint).

Definition number_total_constraints (block : Block) : nat :=
  let number_standard_constraints :=
    count (activated_block_component_generator block Constraint) in
  let number_greybox_constraints := number_activated_greybox_equalities block in
  number_standard_constraints + number_greybox_constraints.

Definition activated_constraints_generator (block : Block) : list ConstraintData :=
  filter con_active (activated_block_component_generator block Constraint).

Definition activated_constraints_set (block : Block) : list ConstraintData :=
  ComponentSet (activated_constraints_generator block).

Definition number_activated_constraints (block : Block) : nat :=
  count (activated_constraints_generator block).

Definition deactivated_constraints_generator (block : Block)
  : list ConstraintData :=
  filter (fun c => negb (con_active c))
         (activated_block_component_generator block Constraint).

Definition deactivated_constraints_set (block : Block) : list ConstraintData :=
  ComponentSet (deactivated_constraints_generator block).

Definition number_deactivated_constraints (block : Block) : nat :=
  count (deactivated_constraints_generator block)
  + number_deactivated_greybox_equalities block.

(** ** Equality constraints *)

(** [pyomo.environ.value] on an evaluated bound. *)
Definition value (q : Q) : Q := q.

(** [x is not None] *)
Definition is_not_None {A : Type} (x : option A) : bool :=
  match x with Some _ => true | None => false end.

(** [x is None] *)
Definition is_None {A : Type} (x : option A) : bool :=
  match x with Some _ => false | None => true end.

(** [c.upper == c.lower], evaluated only after both were found present. *)
Definition bounds_equal (f : Q -> Q) (upper lower : option Q) : bool :=
  match upper, lower with
  | Some u, Some l => Qeq_bool (f u) (f l)
  | _, _ => false
  end.

Definition total_equalities_generator (block : Block) : list ConstraintData :=
  filter (fun c => is_not_None (con_upper c) && is_not_None (con_lower c)
                   && bounds_equal (fun x => x) (con_upper c) (con_lower c))
         (activated_block_component_generator block Constraint).

Definition total_equalities_set (block : Block) : list ConstraintData :=
  ComponentSet (total_equalities_generator block).

Definition number_total_equalities (block : Block) : nat :=
  count (total_equalities_generator block)
  + number_activated_greybox_equalities block.

Definition activated_equalities_generator (block : Block) : list ConstraintData :=
  filter (fun c => is_not_None (con_upper c) && is_not_None (con_lower c)
                   && bounds_equal value (con_upper c) (con_lower c))
         (_iter_indexed_block_data_objects block Constraint (Some true) true).

Definition activated_equalities_set (block : Block) : list ConstraintData :=
  ComponentSet (activated_equalities_generator block).

Definition number_activated_equalities (block : Block) : nat :=
  count (activated_equalities_generator block)
  + number_activated_greybox_equalities block.

Definition deactivated_equalities_generator (block : Block)
  : list ConstraintData :=
  filter (fun c => negb (con_active c)) (total_equalities_generator block).

Definition deactivated_equalities_set (block : Block) : list ConstraintData :=
  ComponentSet (deactivated_equalities_generator block).


(** ** Inequality constraints *)

Definition total_inequalities_generator (block : Block) : list ConstraintData :=
  filter (fun c => is_None (con_upper c) || is_None (con_lower c))
         (activated_block_component_generator block Constraint).

Definition total_inequalities_set (block : Block) : list ConstraintData :=
  ComponentSet (total_inequalities_generator block).

Definition number_total_inequalities (block : Block) : nat :=
  count (total_inequalities_generator block).

Definition activated_inequalities_generator (block : Block)
  : list ConstraintData :=
  filter (fun c => is_None (con_upper c) || is_None (con_lower c))
         (_iter_indexed_block_data_objects block Constraint (Some true) true).

Definition activated_inequalities_set (block : Block) : list ConstraintData :=
  ComponentSet (activated_inequalities_generator block).

Definition number_activated_inequalities (block : Block) : nat :=
  count (activated_inequalities_generator block).

Definition deactivated_inequalities_generator (block : Block)
  : list ConstraintData :=
  filter (fun c => negb (con_active c)) (total_inequalities_generator block).

Definition deactivated_inequalities_set (block : Block) : list ConstraintData :=
  ComponentSet (deactivated_inequalities_generator block).


(** ** Basic variable methods *)

Definition variables_set (block : Block) : list VarData :=
  fold_left add (greybox_variables block)
    (fold_left add (_iter_indexed_block_data_objects block Var (Some true) true) []).

Definition number_variables (block : Block) : nat :=
  length (variables_set block).

Definition fixed_variables_generator (block : Block) : list VarData :=
  filter var_fixed (_iter_indexed_block_data_objects block Var (Some true) true)
  ++ filter var_fixed (greybox_variables block).

Definition fixed_variables_set (block : Block) : list VarData :=
  ComponentSet (fixed_variables_generator block).

Definition number_fixed_variables (block : Block) : nat :=
  length (fixed_variables_set block).

Definition unfixed_variables_generator (block : Block) : list VarData :=
  filter (fun v => negb (var_fixed v))
         (_iter_indexed_block_data_objects block Var (Some true) true).

Definition unfixed_variables_set (block : Block) : list VarData :=
  ComponentSet (unfixed_variables_generator block).

Definition number_unfixed_variables (block : Block) : nat :=
  length (unfixed_variables_set block).

(** ** Variables near their bounds *)

(** [x > y] on numbers *)
Definition Qgt_bool (x y : Q) : bool := negb (Qle_bool x y).

(** Python's [max(a, b)]: the first argument unless the second is larger. *)
Definition py_max (a b : Q) : Q := if Qgt_bool b a then b else a.

Definition default_abs_tol : Q := 1 # 10000.
Definition default_rel_tol : Q := 1 # 10000.

(** The [mag] computed for a variable. *)
Definition magnitude (v : VarData) : Q :=
  match var_ub v, var_lb v with
  | Some u, Some l => value (u - l)%Q
  | Some u, None => Qabs (value u)
  | None, Some l => Qabs (value l)
  | None, None => 0%Q
  end.

(** The tolerances in force once the deprecated [tol] argument is applied. *)
Definition effective_abs_tol (tol : option Q) (abs_tol : Q) : Q :=
  match tol with Some t => t | None => abs_tol end.
Definition effective_rel_tol (tol : option Q) (rel_tol : Q) : Q :=
  match tol with Some t => t | None => rel_tol end.

(** [tol = max(abs_tol, mag * rel_tol)] *)
Definition bound_tolerance (abs_tol rel_tol : Q) (v : VarData) : Q :=
  py_max abs_tol (magnitude v * rel_tol)%Q.

(** The test of one variable that already has a value [x]. *)
Definition near_a_bound (skip_lb skip_ub : bool) (tol : Q) (v : VarData) (x : Q)
  : bool :=
  if match var_ub v with
     | Some u => negb skip_ub && Qle_bool (value (u - x)%Q) tol
     | None => false
     end
  then true
  else match var_lb v with
       | Some l => negb skip_lb && Qle_bool (value (x - l)%Q) tol
       | None => false
       end.

(** [relative] only triggers a deprecation warning. *)
Definition variables_near_bounds_generator (block : Block) (tol : option Q)
    (relative : option bool) (skip_lb skip_ub : bool) (abs_tol rel_tol : Q)
  : list VarData :=
  let abs_tol := effective_abs_tol tol abs_tol in
  let rel_tol := effective_rel_tol tol rel_tol in
  flat_map
    (fun v =>
       match var_value v with
       | None => []
       | Some x =>
           let tol := bound_tolerance abs_tol rel_tol v in
           if near_a_bound skip_lb skip_ub tol v x then [v] else []
       end)
    (_iter_indexed_block_data_objects block Var (Some true) true).

Definition variables_near_bounds_set (block : Block) (tol : option Q)
    (relative : option bool) (skip_lb skip_ub : bool) (abs_tol rel_tol : Q)
  : list VarData :=
  ComponentSet
    (variables_near_bounds_generator block tol relative skip_lb skip_ub
       abs_tol rel_tol).

Definition number_variables_near_bounds (block : Block) (tol : option Q)
    (abs_tol rel_tol : Q) : nat :=
  length (variables_near_bounds_set block tol None false false abs_tol rel_tol).

(** ** Variables in constraints *)

(** The variable leaves of an expression, left to right. *)
Fixpoint leaves (e : Expr) : list VarData :=
  match e with
  | Num _ => []
  | VarRef v => [v]
  | Sum a b | Diff a b | Prod a b | Quot a b => leaves a ++ leaves b
  end.

(** [pyomo.core.expr.identify_variables]: every variable of the expression,
    fixed ones included, each yielded once. *)
Definition identify_variables (e : Expr) : list VarData :=
  ComponentSet (leaves e).

Definition variables_in_activated_constraints_set (block : Block) : list VarData :=
  fold_left add (greybox_variables block)
    (fold_left
       (fun var_set c => fold_left add (identify_variables (con_body c)) var_set)
       (_iter_indexed_block_data_objects block Constraint (Some true) true) []).

Definition number_variables_in_activated_constraints (block : Block) : nat :=
  length (variables_in_activated_constraints_set block).

Definition variables_in_activated_equalities_set (block : Block) : list VarData :=
  fold_left add (greybox_variables block)
    (fold_left
       (fun var_set c => fold_left add (identify_variables (con_body c)) var_set)
       (activated_equalities_generator block) []).

Definition fixed_variables_in_activated_equalities_set (block : Block)
  : list VarData :=
  fold_left (fun var_set v => if var_fixed v then add var_set v else var_set)
            (variables_in_activated_equalities_set block) [].

Definition unfixed_variables_in_activated_equalities_set (block : Block)
  : list VarData :=
  fold_left (fun var_set v => if negb (var_fixed v) then add var_set v else var_set)
            (variables_in_activated_equalities_set block) [].

Definition number_unfixed_variables_in_activated_equalities (block : Block) : nat :=
  length (unfixed_variables_in_activated_equalities_set block).

Definition unused_variables_set (block : Block) : list VarData :=
  difference (variables_set block) (variables_in_activated_constraints_set block).

(** ** Objective methods *)

Definition total_objectives_generator (block : Block) : list ObjectiveData :=
  activated_block_component_generator block Objective.

Definition total_objectives_set (block : Block) : list ObjectiveData :=
  ComponentSet (total_objectives_generator block).

Definition activated_objectives_generator (block : Block) : list ObjectiveData :=
  filter obj_active (activated_block_component_generator block Objective).

Definition activated_objectives_set (block : Block) : list ObjectiveData :=
  ComponentSet (activated_objectives_generator block).

Definition deactivated_objectives_generator (block : Block) : list ObjectiveData :=
  filter (fun o => negb (obj_active o))
         (activated_block_component_generator block Objective).

Definition deactivated_objectives_set (block : Block) : list ObjectiveData :=
  ComponentSet (deactivated_objectives_generator block).

(** ** Other model statistics *)

(** Python integers are unbounded and signed. *)
Definition degrees_of_freedom (block : Block) : Z :=
  (Z.of_nat (number_unfixed_variables_in_activated_equalities block)
   - Z.of_nat (number_activated_equalities block))%Z.

(** Numeric evaluation of a body, [c.body()].  A variable without a value
    raises [ValueError]; a zero divisor raises [ZeroDivisionError]. *)
Fixpoint evaluate (e : Expr) : result Q :=
  match e with
  | Num q => Ok q
  | VarRef v =>
      match var_value v with
      | Some x => Ok x
      | None => Raise ValueError
      end
  | Sum a b => x <- evaluate a ;; y <- evaluate b ;; Ok (x + y)%Q
  | Diff a b => x <- evaluate a ;; y <- evaluate b ;; Ok (x - y)%Q
  | Prod a b => x <- evaluate a ;; y <- evaluate b ;; Ok (x * y)%Q
  | Quot a b =>
      x <- evaluate a ;; y <- evaluate b ;;
      if Qeq_bool y 0 then Raise ZeroDivisionError else Ok (x / y)%Q
  end.

(** The body of the [try] block of [large_residuals_set], up to the final
    residual [r]. *)
Definition residual (c : ConstraintData) : result Q :=
  let r := 0%Q in
  r_temp <- match con_lower c with
            | None => Ok 0%Q
            | Some l => b <- evaluate (con_body c) ;; Ok (value (l - b)%Q)
            end ;;
  let r := if Qgt_bool r_temp r then r_temp else r in
  r_temp <- match con_upper c with
            | None => Ok 0%Q
            | Some u => b <- evaluate (con_body c) ;; Ok (value (b - u)%Q)
            end ;;
  let r := if Qgt_bool r_temp r then r_temp else r in
  Ok r.

(** [d[k] = x] on a dict keyed by object identity. *)
Fixpoint setitem {A V : Type} `{Identity A} (d : list (A * V)) (k : A) (x : V)
  : list (A * V) :=
  match d with
  | [] => [(k, x)]
  | (k', y) :: rest =>
      if same k k' then (k', x) :: rest else (k', y) :: setitem rest k x
  end.

(** One iteration of the loop of [large_residuals_set] on the pair
    ([large_residuals_set], [residual_values]). *)
Definition large_residuals_step (tol : Q) (return_residual_values : bool)
    (st : list ConstraintData * list (ConstraintData * option Q))
    (c : ConstraintData)
  : result (list ConstraintData * list (ConstraintData * option Q)) :=
  match residual c with
  | Ok r =>
      if Qgt_bool r tol
      then Ok (add (fst st) c,
               if return_residual_values then setitem (snd st) c (Some r)
               else snd st)
      else Ok st
  | Raise e =>
      if caught e
      then Ok (add (fst st) c,
               if return_residual_values then setitem (snd st) c None
               else snd st)
      else Raise e
  end.

(** A [for] loop whose body may raise. *)
Fixpoint for_each {A S : Type} (body : S -> A -> result S) (l : list A) (s : S)
  : result S :=
  match l with
  | [] => Ok s
  | x :: rest => s' <- body s x ;; for_each body rest s'
  end.

(** Returns the set, or the dictionary when [return_residual_values]. *)
Definition large_residuals_set (block : Block) (tol : Q)
    (return_residual_values : bool)
  : result (list ConstraintData + list (ConstraintData * option Q)) :=
  st <- for_each (large_residuals_step tol return_residual_values)
          (_iter_indexed_block_data_objects block Constraint (Some true) true)
          ([], []) ;;
  if return_residual_values then Ok (inr (snd st)) else Ok (inl (fst st)).

Definition default_residual_tol : Q := 1 # 100000.

(** [bound - x] or [x - bound] where the bound may be [None]. *)
Definition py_sub_from (bound : option Q) (x : Q) : result Q :=
  match bound with Some l => Ok (l - x)%Q | None => Raise TypeError end.
Definition py_sub (x : Q) (bound : option Q) : result Q :=
  match bound with Some u => Ok (x - u)%Q | None => Raise TypeError end.

(** One iteration of the loop of [number_large_residuals]. *)
Definition number_large_residuals_step (tol : Q) (lr : nat) (c : ConstraintData)
  : result nat :=
  first <- (if con_active c
            then b <- evaluate (con_body c) ;;
                 d <- py_sub_from (con_lower c) b ;;
                 Ok (Qgt_bool (value d) tol)
            else Ok false) ;;
  if first then Ok (lr + 1)
  else
    second <- (if con_active c
               then b <- evaluate (con_body c) ;;
                    d <- py_sub b (con_upper c) ;;
                    Ok (Qgt_bool (value d) tol)
               else Ok false) ;;
    if second then Ok (lr + 1) else Ok lr.

Definition number_large_residuals (block : Block) (tol : Q) : result nat :=
  for_each (number_large_residuals_step tol)
    (_iter_indexed_block_data_objects block Constraint (Some true) true) 0.

(** ** Further counting and set methods *)

Definition number_deactivated_greybox_block (block : Block) : nat :=
  length (deactivated_greybox_block_set block).

Definition number_greybox_blocks (block : Block) : nat :=
  length (greybox_block_set block).

Definition number_activated_greybox_blocks (block : Block) : nat :=
  length (activated_greybox_block_set block).

(** A difference of two Python integers. *)
Definition number_deactivated_blocks (block : Block) : Z :=
  (Z.of_nat (number_total_blocks block)
   - Z.of_nat (number_activated_blocks block))%Z.

Definition variables_not_in_activated_constraints_set (block : Block)
  : list VarData :=
  let active_vars := variables_in_activated_constraints_set block in
  fold_left
    (fun var_set v =>
       if negb (contains active_vars v) then add var_set v else var_set)
    (_iter_indexed_block_data_objects block Var (Some true) true) [].

Definition number_variables_not_in_activated_constraints (block : Block) : nat :=
  length (variables_not_in_activated_constraints_set block).

Definition number_variables_in_activated_equalities (block : Block) : nat :=
  length (variables_in_activated_equalities_set block).

Definition variables_in_activated_inequalities_set (block : Block)
  : list VarData :=
  fold_left
    (fun var_set c => fold_left add (identify_variables (con_body c)) var_set)
    (activated_inequalities_generator block) [].

Definition number_variables_in_activated_inequalities (block : Block) : nat :=
  length (variables_in_activated_inequalities_set block).

Definition variables_only_in_inequalities (block : Block) : list VarData :=
  difference (variables_in_activated_inequalities_set block)
             (variables_in_activated_equalities_set block).

Definition number_variables_only_in_inequalities (block : Block) : nat :=
  length (variables_only_in_inequalities block).

Definition number_fixed_variables_in_activated_equalities (block : Block) : nat :=
  length (fixed_variables_in_activated_equalities_set block).

Definition unfixed_greybox_variables (block : Block) : list VarData :=
  fold_left (fun var_set var => if negb (var_fixed var) then add var_set var
                                else var_set)
            (greybox_variables block) [].

Definition number_of_unfixed_greybox_variables (block : Block) : nat :=
  length (unfixed_greybox_variables block).

Definition number_of_greybox_variables (block : Block) : nat :=
  length (greybox_variables block).

Definition fixed_variables_only_in_inequalities (block : Block) : list VarData :=
  fold_left (fun var_set v => if var_fixed v then add var_set v else var_set)
            (variables_only_in_inequalities block) [].

Definition number_fixed_variables_only_in_inequalities (block : Block) : nat :=
  length (fixed_variables_only_in_inequalities block).

Definition number_unused_variables (block : Block) : nat :=
  length (unused_variables_set block).

Definition fixed_unused_variables_set (block : Block) : list VarData :=
  fold_left (fun var_set v => if var_fixed v then add var_set v else var_set)
            (unused_variables_set block) [].

Definition number_fixed_unused_variables (block : Block) : nat :=
  length (fixed_unused_variables_set block).

Definition number_total_objectives (block : Block) : nat :=
  count (total_objectives_generator block).

Definition number_activated_objectives (block : Block) : nat :=
  count (activated_objectives_generator block).

Definition number_deactivated_objectives (block : Block) : nat :=
  count (deactivated_objectives_generator block).

Definition variables_with_none_value_in_activated_equalities_set (block : Block)
  : list VarData :=
  fold_left (fun var_set v => if is_None (var_value v) then add var_set v
                              else var_set)
            (variables_in_activated_equalities_set block) [].

Definition number_variables_with_none_value_in_activated_equalities
    (block : Block) : nat :=
  length (variables_with_none_value_in_activated_equalities_set block).

(** ** Deactivating a grey box

    [g.deactivate()] flips the flag of the object; every reference to it in
    the tree then reads inactive, and the node stays where it is. *)

Definition deactivated (g : ExternalGreyBoxBlockData) : ExternalGreyBoxBlockData :=
  mkGreyBox (gb_id g) false (gb_inputs g) (gb_outputs g) (get_external_model g).

Definition deactivate_ref (g x : ExternalGreyBoxBlockData)
  : ExternalGreyBoxBlockData :=
  if same x g then deactivated x else x.

Fixpoint deactivate_greybox_data (g : ExternalGreyBoxBlockData) (bd : BlockData)
  {struct bd} : BlockData :=
  match bd with
  | mkBlockData i a v c o gs subs =>
      mkBlockData i a v c o (map (deactivate_ref g) gs)
                  (map (deactivate_greybox_data g) subs)
  end.

Definition deactivate_greybox (g : ExternalGreyBoxBlockData) (block : Block)
  : Block :=
  match block with
  | ScalarBlock bd => ScalarBlock (deactivate_greybox_data g bd)
  | IndexedBlock i a values =>
      IndexedBlock i a (map (deactivate_greybox_data g) values)
  end.

(** The input and output variables of one grey box, in the order
    [greybox_variables] adds them. *)
Definition greybox_node_variables (g : ExternalGreyBoxBlockData) : list VarData :=
  map_values (gb_inputs g) ++ map_values (gb_outputs g).

(** ** Vocabulary of the statements *)

(** [act] and [deact] are disjoint and together make up [total]. *)
Definition partitions {A : Type} (act deact total : list A) : Prop :=
  (forall x, ~ (In x act /\ In x deact))
  /\ (forall x, In x total <-> In x act \/ In x deact).

(** The root is active; for an indexed root, each of its elements is. *)
Definition root_active (block : Block) : bool :=
  match block with
  | ScalarBlock bd => blk_active bd
  | IndexedBlock _ _ values => forallb blk_active values
  end.

(** The equality rule in words: both bounds present and numerically equal. *)
Definition is_equality (c : ConstraintData) : Prop :=
  exists l u, con_lower c = Some l /\ con_upper c = Some u /\ (u == l)%Q.

(** The inequality rule in words: at least one bound absent. *)
Definition is_inequality (c : ConstraintData) : Prop :=
  con_lower c = None \/ con_upper c = None.

(** The magnitude in words. *)
Definition spec_magnitude (v : VarData) : Q :=
  match var_lb v, var_ub v with
  | Some l, Some u => (u - l)%Q
  | None, Some u => Qabs u
  | Some l, None => Qabs l
  | None, None => 0%Q
  end.

(** The near-bound rule in words, for a variable of value [x] and an
    effective tolerance [t]. *)
Definition within_tolerance (skip_lb skip_ub : bool) (t : Q) (v : VarData) (x : Q)
  : Prop :=
  (exists u, var_ub v = Some u /\ skip_ub = false /\ (u - x <= t)%Q)
  \/ (exists l, var_lb v = Some l /\ skip_lb = false /\ (x - l <= t)%Q).

(** A constraint is reported: its residual exceeds [tol], or it cannot be
    evaluated. *)
Definition flagged (tol : Q) (c : ConstraintData) : Prop :=
  match residual c with
  | Ok r => (tol < r)%Q
  | Raise _ => True
  end.

(** The residual reported for a constraint: its value, or [None] when it
    cannot be evaluated. *)
Definition marker (c : ConstraintData) : option Q :=
  match residual c with
  | Ok r => Some r
  | Raise _ => None
  end.

(** A two-sided constraint whose bounds differ: neither an equality nor an
    inequality for the classifiers. *)
Definition is_range_test (c : ConstraintData) : bool :=
  match con_upper c, con_lower c with
  | Some u, Some l => negb (Qeq_bool u l)
  | _, _ => false
  end.

(** Every block beneath and including [bd] is active. *)
Fixpoint all_active (bd : BlockData) {struct bd} : bool :=
  match bd with
  | mkBlockData _ a _ _ _ _ subs => a && forallb all_active subs
  end.

(** Every block of the model is active, the root included. *)
Definition every_block_active (block : Block) : bool :=
  match block with
  | ScalarBlock bd => all_active bd
  | IndexedBlock _ a values => a && forallb all_active values
  end.

(** The two one-sided violations of a constraint whose body evaluates to [b];
    an absent bound gives 0. *)
Definition lower_gap (c : ConstraintData) (b : Q) : Q :=
  match con_lower c with Some l => (l - b)%Q | None => 0%Q end.
Definition upper_gap (c : ConstraintData) (b : Q) : Q :=
  match con_upper c with Some u => (b - u)%Q | None => 0%Q end.

(** The test behind [flagged], as a boolean. *)
Definition flagged_test (tol : Q) (c : ConstraintData) : bool :=
  match residual c with
  | Ok r => Qgt_bool r tol
  | Raise _ => true
  end.


(** The contribution of one grey box to the equality counts. *)
Definition greybox_contribution (g : ExternalGreyBoxBlockData) : nat :=
  length (gb_outputs g) + n_equality_constraints (get_external_model g).

(** ** Example models *)

Definition x_free : VarData := mkVar 1 false (Some 0%Q) None None.
Definition y_free : VarData := mkVar 2 false (Some 1%Q) None None.
Definition z_fixed : VarData := mkVar 3 true (Some 2%Q) None None.
Definition w_unset : VarData := mkVar 4 false None None None.

(** [x + y == 1] *)
Definition c_sum : ConstraintData :=
  mkCon 10 true (Some 1%Q) (Some 1%Q) (Sum (VarRef x_free) (VarRef y_free)).
(** [x <= 5] *)
Definition c_upper : ConstraintData :=
  mkCon 12 true None (Some 5%Q) (VarRef x_free).
(** [w == 0] where [w] has no value *)
Definition c_unset : ConstraintData :=
  mkCon 13 true (Some 0%Q) (Some 0%Q) (VarRef w_unset).
(** a deactivated [z == 2] *)
Definition c_off : ConstraintData :=
  mkCon 14 false (Some 2%Q) (Some 2%Q) (VarRef z_fixed).

Definition o_cost : ObjectiveData := mkObj 20 true.
Definition o_off : ObjectiveData := mkObj 21 false.

(** A grey box with one input, two outputs and three internal equalities. *)
Definition u_in : VarData := mkVar 30 false (Some 0%Q) None None.
Definition out1 : VarData := mkVar 31 false (Some 0%Q) None None.
Definition out2 : VarData := mkVar 32 true (Some 0%Q) None None.
Definition grey : ExternalGreyBoxBlockData :=
  mkGreyBox 40 true [("u"%string, u_in)]
            [("y1"%string, out1); ("y2"%string, out2)] (mkExternal 3).


(** Two free variables in one equality: under-constrained. *)
Definition model_under : Block :=
  ScalarBlock (mkBlockData 101 true [x_free; y_free] [c_sum] [] [] []).

(** An inactive root that owns an active equality and an active inequality. *)
Definition model_root_off : Block :=
  ScalarBlock (mkBlockData 102 false [x_free; y_free] [c_sum; c_upper] [] [] []).

(** An active root with an active and an inactive sub-block. *)
Definition sub_on : BlockData :=
  mkBlockData 103 true [z_fixed] [c_off; c_upper] [o_off] [] [].
Definition sub_off : BlockData :=
  mkBlockData 104 false [w_unset] [c_unset] [] [] [].
Definition model_tree : Block :=
  ScalarBlock
    (mkBlockData 105 true [x_free; y_free] [c_sum] [o_cost] [grey]
                 [sub_on; sub_off]).

(** A constraint whose body cannot be evaluated. *)
Definition model_unset : Block :=
  ScalarBlock (mkBlockData 106 true [w_unset] [c_unset] [] [] []).

(** The grey box alone. *)
Definition model_grey : Block :=
  ScalarBlock (mkBlockData 107 true [] [] [] [grey] []).

(** A constraint owned by the root and referenced again from a sub-block. *)
Definition model_alias : Block :=
  ScalarBlock
    (mkBlockData 108 true [x_free; y_free] [c_sum] [] []
                 [mkBlockData 109 true [] [c_sum] [] [] []]).

(** [1 / x == 0] where [x] is 0. *)
Definition c_div : ConstraintData :=
  mkCon 15 true (Some 0%Q) (Some 0%Q) (Quot (Num 1%Q) (VarRef x_free)).
Definition model_div : Block :=
  ScalarBlock (mkBlockData 112 true [x_free] [c_div] [] [] []).

(** Bounds [0, 10], value 9.9999. *)
Definition v_near : VarData :=
  mkVar 50 false (Some (99999 # 10000)%Q) (Some 0%Q) (Some 10%Q).
Definition model_near : Block :=
  ScalarBlock (mkBlockData 110 true [v_near] [] [] [] []).

(** Upper bound 10, value 1000. *)
Definition v_beyond : VarData :=
  mkVar 51 false (Some 1000%Q) None (Some 10%Q).
Definition model_beyond : Block :=
  ScalarBlock (mkBlockData 111 true [v_beyond] [] [] [] []).

(* ====================================================================== *)
(** * Properties *)

(** ** Identity is equality of records *)

Lemma Q_same_spec (p q : Q) : Q_same p q = true <-> p = q.
Proof.
  destruct p as [a b], q as [c d]; unfold Q_same; simpl.
  rewrite andb_true_iff, Z.eqb_eq, Pos.eqb_eq.
  split; [intros [-> ->]; reflexivity | intros E; inversion E; auto].
Qed.

Lemma option_same_spec {A : Type} (eq : A -> A -> bool) :
  (forall x y, eq x y = true <-> x = y) ->
  forall x y, option_same eq x y = true <-> x = y.
Proof.
  intros E [a|] [b|]; simpl; try (split; (discriminate || reflexivity)).
  rewrite E; split; [intros -> | intros [= ->]]; reflexivity.
Qed.

Lemma list_same_Forall {A : Type} (eq : A -> A -> bool) (l1 : list A) :
  Forall (fun x => forall y, eq x y = true <-> x = y) l1 ->
  forall l2, list_same eq l1 l2 = true <-> l1 = l2.
Proof.
  induction 1 as [|x xs Hx _ IH]; intros [|y ys]; simpl;
    try (split; (discriminate || reflexivity)).
  rewrite andb_true_iff, Hx, IH.
  split; [intros [-> ->] | intros [= -> ->]]; auto.
Qed.

Lemma list_same_spec {A : Type} (eq : A -> A -> bool) :
  (forall x y, eq x y = true <-> x = y) ->
  forall l1 l2, list_same eq l1 l2 = true <-> l1 = l2.
Proof.
  intros E l1. apply list_same_Forall, Forall_forall. intros x _; apply E.
Qed.

Lemma VarData_same_spec (v w : VarData) : same v w = true <-> v = w.
Proof.
  destruct v, w; unfold same, VarData_same; simpl.
  rewrite !andb_true_iff, Nat.eqb_eq, eqb_true_iff,
    !(option_same_spec Q_same Q_same_spec).
  split; [intros [[[[-> ->] ->] ->] ->] | intros [= -> -> -> -> ->]]; auto 6.
Qed.

Lemma Expr_same_spec (e f : Expr) : Expr_same e f = true <-> e = f.
Proof.
  revert f; induction e as [p|v|a IHa b IHb|a IHa b IHb|a IHa b IHb|a IHa b IHb];
    intros [q|w|c d|c d|c d|c d]; simpl;
    try (split; discriminate);
    try (rewrite andb_true_iff, IHa, IHb;
         split; [intros [-> ->] | intros [= -> ->]]; auto).
  - rewrite Q_same_spec; split; [intros -> | intros [= ->]]; auto.
  - rewrite VarData_same_spec; split; [intros -> | intros [= ->]]; auto.
Qed.

Lemma ConstraintData_same_spec (c d : ConstraintData) : same c d = true <-> c = d.
Proof.
  destruct c, d; unfold same, ConstraintData_same; simpl.
  rewrite !andb_true_iff, Nat.eqb_eq, eqb_true_iff,
    !(option_same_spec Q_same Q_same_spec), Expr_same_spec.
  split; [intros [[[[-> ->] ->] ->] ->] | intros [= -> -> -> -> ->]]; auto 6.
Qed.

Lemma ObjectiveData_same_spec (o p : ObjectiveData) : same o p = true <-> o = p.
Proof.
  destruct o, p; unfold same, ObjectiveData_same; simpl.
  rewrite andb_true_iff, Nat.eqb_eq, eqb_true_iff.
  split; [intros [-> ->] | intros [= -> ->]]; auto.
Qed.

Lemma entry_same_spec (p q : string * VarData) : entry_same p q = true <-> p = q.
Proof.
  destruct p, q; unfold entry_same; simpl.
  rewrite andb_true_iff, String.eqb_eq, VarData_same_spec.
  split; [intros [-> ->] | intros [= -> ->]]; auto.
Qed.

Lemma GreyBox_same_spec (g h : ExternalGreyBoxBlockData) :
  same g h = true <-> g = h.
Proof.
  destruct g as [i a ins outs [n]], h as [j b ins' outs' [m]];
    unfold same, GreyBox_same; simpl.
  rewrite !andb_true_iff, !Nat.eqb_eq, eqb_true_iff,
    !(list_same_spec entry_same entry_same_spec).
  split; [intros [[[[-> ->] ->] ->] ->] | intros [= -> -> -> -> ->]]; auto 6.
Qed.

(** Induction on the block tree, with the sub-blocks as hypotheses. *)
Lemma BlockData_tree_ind (P : BlockData -> Prop) :
  (forall i a v c o g subs, Forall P subs -> P (mkBlockData i a v c o g subs)) ->
  forall bd, P bd.
Proof.
  intros step. fix IH 1. intros [i a v c o g subs].
  apply step. induction subs as [|s subs IHs]; constructor; [apply IH | exact IHs].
Qed.

Lemma BlockData_same_spec (a b : BlockData) : BlockData_same a b = true <-> a = b.
Proof.
  revert b; induction a as [i a v c o g subs IH] using BlockData_tree_ind.
  intros [j b v' c' o' g' subs']; simpl.
  rewrite !andb_true_iff, Nat.eqb_eq, eqb_true_iff,
    (list_same_spec _ VarData_same_spec), (list_same_spec _ ConstraintData_same_spec),
    (list_same_spec _ ObjectiveData_same_spec), (list_same_spec _ GreyBox_same_spec),
    (list_same_Forall _ IH).
  split; [intros [[[[[[-> ->] ->] ->] ->] ->] ->]
         | intros [= -> -> -> -> -> -> ->]]; auto 8.
Qed.

Lemma Block_same_spec (a b : Block) : same a b = true <-> a = b.
Proof.
  destruct a as [x|i a xs], b as [y|j b ys]; unfold same, Block_same;
    try (split; discriminate).
  - rewrite BlockData_same_spec; split; [intros -> | intros [= ->]]; auto.
  - rewrite !andb_true_iff, Nat.eqb_eq, eqb_true_iff,
      (list_same_spec _ BlockData_same_spec).
    split; [intros [[-> ->] ->] | intros [= -> -> ->]]; auto.
Qed.

(** ** ComponentSet facts *)

Section ComponentSetFacts.
Context {A : Type} {I : Identity A}.
Hypothesis same_spec : forall x y : A, same x y = true <-> x = y.

Lemma contains_In (s : list A) (x : A) : contains s x = true <-> In x s.
Proof.
  unfold contains. rewrite existsb_exists. split.
  - intros (y & Hy & E). apply same_spec in E. subst; assumption.
  - intros Hx. exists x. split; [assumption | apply same_spec; reflexivity].
Qed.

Lemma contains_false (s : list A) (x : A) : contains s x = false <-> ~ In x s.
Proof.
  rewrite <- contains_In. destruct (contains s x); split; congruence.
Qed.

Lemma In_add (s : list A) (x y : A) : In y (add s x) <-> In y s \/ y = x.
Proof.
  unfold add. destruct (contains s x) eqn:E.
  - apply contains_In in E. split; [auto | intros [?| ->]; assumption].
  - rewrite in_app_iff; simpl. intuition.
Qed.

Lemma NoDup_add (s : list A) (x : A) : NoDup s -> NoDup (add s x).
Proof.
  intros Hs. unfold add. destruct (contains s x) eqn:E; [assumption|].
  apply contains_false in E.
  apply NoDup_app; [assumption | repeat constructor; intros [] | ].
  intros y Hy [<-|[]]. exact (E Hy).
Qed.

Lemma length_add_le (s : list A) (x : A) : length (add s x) <= S (length s).
Proof.
  unfold add. destruct (contains s x); [lia|]. rewrite length_app; simpl; lia.
Qed.

Lemma In_fold_add (l s : list A) (y : A) :
  In y (fold_left add l s) <-> In y s \/ In y l.
Proof.
  revert s; induction l as [|x l IH]; intros s; simpl; [tauto|].
  rewrite IH, In_add. intuition.
Qed.

Lemma NoDup_fold_add (l s : list A) : NoDup s -> NoDup (fold_left add l s).
Proof.
  revert s; induction l as [|x l IH]; intros s Hs; simpl; [assumption|].
  apply IH, NoDup_add, Hs.
Qed.

Lemma fold_add_NoDup_app (l s : list A) :
  NoDup (s ++ l) -> fold_left add l s = s ++ l.
Proof.
  revert s; induction l as [|x l IH]; intros s Hs; simpl.
  - now rewrite app_nil_r.
  - assert (E : contains s x = false).
    { apply contains_false. intros Hx.
      apply NoDup_remove_2 in Hs. apply Hs, in_or_app; auto. }
    unfold add at 2. rewrite E.
    rewrite IH; rewrite <- app_assoc; simpl; [reflexivity | assumption].
Qed.

Lemma In_ComponentSet (l : list A) (y : A) : In y (ComponentSet l) <-> In y l.
Proof. unfold ComponentSet. rewrite In_fold_add; simpl; tauto. Qed.

Lemma NoDup_ComponentSet (l : list A) : NoDup (ComponentSet l).
Proof. apply NoDup_fold_add; constructor. Qed.

Lemma length_ComponentSet_le (l : list A) : length (ComponentSet l) <= length l.
Proof.
  apply NoDup_incl_length; [apply NoDup_ComponentSet|].
  intros y; apply In_ComponentSet.
Qed.

(** Building the set loses elements exactly when the stream repeats one. *)
Lemma length_ComponentSet_iff (l : list A) :
  length (ComponentSet l) = length l <-> NoDup l.
Proof.
  split.
  - intros E. apply NoDup_incl_NoDup with (l := ComponentSet l).
    + apply NoDup_ComponentSet.
    + lia.
    + intros y; apply In_ComponentSet.
  - intros Hl. unfold ComponentSet. now rewrite fold_add_NoDup_app.
Qed.

Lemma In_difference (s t : list A) (x : A) :
  In x (difference s t) <-> In x s /\ ~ In x t.
Proof.
  unfold difference. rewrite filter_In, negb_true_iff, contains_false. tauto.
Qed.

(** The loop [for x in l: if p(x): s.add(x)]. *)
Lemma In_fold_add_if (p : A -> bool) (l s : list A) (y : A) :
  In y (fold_left (fun s x => if p x then add s x else s) l s)
  <-> In y s \/ (In y l /\ p y = true).
Proof.
  revert s; induction l as [|x l IH]; intros s; simpl; [tauto|].
  rewrite IH. destruct (p x) eqn:E.
  - rewrite In_add. intuition (subst; auto).
  - intuition (subst; auto; congruence).
Qed.

Lemma NoDup_fold_add_if (p : A -> bool) (l s : list A) :
  NoDup s -> NoDup (fold_left (fun s x => if p x then add s x else s) l s).
Proof.
  revert s; induction l as [|x l IH]; intros s Hs; simpl; [assumption|].
  apply IH. destruct (p x); [apply NoDup_add|]; assumption.
Qed.

(** On a duplicate-free list that loop is [filter]. *)
Lemma fold_add_if_filter (p : A -> bool) (l s : list A) :
  NoDup (s ++ l) ->
  fold_left (fun s x => if p x then add s x else s) l s = s ++ filter p l.
Proof.
  revert s; induction l as [|x l IH]; intros s Hs; simpl.
  - now rewrite app_nil_r.
  - destruct (p x) eqn:E.
    + assert (C : contains s x = false).
      { apply contains_false. intros Hx.
        apply NoDup_remove_2 in Hs. apply Hs, in_or_app; auto. }
      unfold add. rewrite C.
      rewrite IH; rewrite <- app_assoc; simpl; [reflexivity | assumption].
    + apply IH. now apply NoDup_remove_1 in Hs.
Qed.
End ComponentSetFacts.

(** ** The traversal *)

Lemma matches_None (flag : bool) : matches None flag = true.
Proof. reflexivity. Qed.

Lemma matches_true (flag : bool) : matches (Some true) flag = flag.
Proof. destruct flag; reflexivity. Qed.

Lemma filter_all {A : Type} (l : list A) : filter (fun _ => true) l = l.
Proof. induction l; simpl; congruence. Qed.

(** Without descent and without a filter, a block yields what it owns. *)
Lemma component_data_objects_local {A : Type} (bd : BlockData) (ct : CType A) :
  component_data_objects bd ct None false = local_components ct bd.
Proof.
  unfold component_data_objects; simpl. now rewrite filter_all, app_nil_r.
Qed.

Lemma In_component_data_objects {A : Type} (bd : BlockData) (ct : CType A)
    (active : option bool) (x : A) :
  In x (component_data_objects bd ct active true)
  <-> exists b, In b (block_data_objects active bd)
                /\ In x (local_components ct b)
                /\ matches active (component_active ct x) = true.
Proof.
  unfold component_data_objects. rewrite in_flat_map.
  split; intros (b & Hb & Hx); exists b; rewrite filter_In in *; tauto.
Qed.

(** The activated walk visits only blocks the total walk visits. *)
Lemma block_data_objects_activated_total (bd x : BlockData) :
  In x (block_data_objects (Some true) bd) -> In x (block_data_objects None bd).
Proof.
  induction bd as [i a v c o g subs IH] using BlockData_tree_ind; simpl.
  rewrite matches_true. destruct a; simpl; [|intros []].
  intros [E|Hx]; [left; exact E | right].
  rewrite in_flat_map in *. destruct Hx as (s & Hs & Hx).
  exists s. split; [assumption|].
  rewrite Forall_forall in IH. now apply IH.
Qed.

Lemma component_data_objects_activated_total {A : Type} (bd : BlockData)
    (ct : CType A) (x : A) :
  In x (component_data_objects bd ct (Some true) true) ->
  In x (component_data_objects bd ct None true).
Proof.
  rewrite !In_component_data_objects. intros (b & Hb & Hx & _).
  exists b. auto using block_data_objects_activated_total.
Qed.

Lemma iter_activated_total {A : Type} (block : Block) (ct : CType A) (x : A) :
  In x (_iter_indexed_block_data_objects block ct (Some true) true) ->
  In x (_iter_indexed_block_data_objects block ct None true).
Proof.
  destruct block as [bd|i a values]; simpl.
  - apply component_data_objects_activated_total.
  - rewrite !in_flat_map. intros (bd & Hbd & Hx). exists bd.
    auto using component_data_objects_activated_total.
Qed.

(** The blocks the activated walk visits from an active block are that block
    and the activated sub-blocks found beneath it. *)
Lemma block_data_objects_activated (bd x : BlockData) :
  In x (block_data_objects (Some true) bd)
  <-> blk_active bd = true
      /\ (x = bd \/ In x (component_data_objects bd BlockT (Some true) true)).
Proof.
  revert x. induction bd as [i a v c o g subs IH] using BlockData_tree_ind.
  intros x. rewrite In_component_data_objects. simpl.
  rewrite matches_true. destruct a; simpl.
  2:{ split; [intros [] | intros [E _]; discriminate]. }
  rewrite Forall_forall in IH. split.
  - intros [E|Hx]; split; auto.
    rewrite in_flat_map in Hx. destruct Hx as (s & Hs & Hx).
    destruct (proj1 (IH s Hs x) Hx) as (Ha & [->|Hd]).
    + right. exists (mkBlockData i true v c o g subs).
      simpl. rewrite matches_true. auto.
    + right. rewrite In_component_data_objects in Hd.
      destruct Hd as (b & Hb & Hlocal).
      exists b. split; [|exact Hlocal].
      right. rewrite in_flat_map. exists s; auto.
  - intros (_ & [->|(b & [<-|Hb] & Hx & Hact)]); auto.
    + simpl in Hx. rewrite matches_true in Hact.
      right. rewrite in_flat_map. exists x. split; [assumption|].
      apply IH; [assumption|]. auto.
    + right. rewrite in_flat_map in *. destruct Hb as (s & Hs & Hb).
      exists s. split; [assumption|].
      apply IH; [assumption|]. split.
      * destruct s as [? [|]]; simpl in *; [reflexivity | destruct Hb].
      * right. rewrite In_component_data_objects. exists b; auto.
Qed.

(** What [activated_block_component_generator] yields from a scalar root. *)
Lemma In_generator_scalar {A : Type} (bd : BlockData) (ct : CType A) (x : A) :
  In x (activated_block_component_generator (ScalarBlock bd) ct)
  <-> In x (local_components ct bd)
      \/ exists b, In b (component_data_objects bd BlockT (Some true) true)
                   /\ In x (local_components ct b).
Proof.
  unfold activated_block_component_generator; simpl.
  rewrite in_app_iff, component_data_objects_local, in_flat_map.
  split; (intros [H|(b & Hb & Hx)]; [left; exact H | right; exists b]);
    rewrite component_data_objects_local in *; auto.
Qed.

Lemma In_generator_indexed {A : Type} (i : nat) (a : bool)
    (values : list BlockData) (ct : CType A) (x : A) :
  In x (activated_block_component_generator (IndexedBlock i a values) ct)
  <-> exists bd, In bd values
                 /\ In x (activated_block_component_generator (ScalarBlock bd) ct).
Proof.
  unfold activated_block_component_generator at 1; simpl.
  rewrite in_app_iff, !in_flat_map. split.
  - intros [(bd & Hbd & Hx)|(b & Hb & Hx)].
    + exists bd. split; [assumption|].
      apply In_generator_scalar. left.
      now rewrite component_data_objects_local in Hx.
    + rewrite in_flat_map in Hb. destruct Hb as (bd & Hbd & Hb).
      exists bd. split; [assumption|].
      apply In_generator_scalar. right. exists b.
      now rewrite component_data_objects_local in Hx.
  - intros (bd & Hbd & Hx). apply In_generator_scalar in Hx.
    destruct Hx as [Hx|(b & Hb & Hx)].
    + left. exists bd. now rewrite component_data_objects_local.
    + right. exists b. rewrite component_data_objects_local.
      split; [|assumption]. rewrite in_flat_map. exists bd; auto.
Qed.

(** The activated walk of a scalar root, through the generator. *)
Lemma In_activated_walk_scalar {A : Type} (bd : BlockData) (ct : CType A) (x : A) :
  In x (component_data_objects bd ct (Some true) true)
  <-> blk_active bd = true /\ component_active ct x = true
      /\ In x (activated_block_component_generator (ScalarBlock bd) ct).
Proof.
  rewrite In_component_data_objects, In_generator_scalar. split.
  - intros (b & Hb & Hx & Hact). rewrite matches_true in Hact.
    apply block_data_objects_activated in Hb. destruct Hb as (Ha & [->|Hb]).
    + auto.
    + repeat split; auto. right. exists b; auto.
  - intros (Ha & Hact & [Hx|(b & Hb & Hx)]).
    + exists bd. rewrite matches_true. repeat split; auto.
      apply block_data_objects_activated; auto.
    + exists b. rewrite matches_true. repeat split; auto.
      apply block_data_objects_activated; auto.
Qed.

(** Whatever the activated walk yields is active and is among what the
    generator yields. *)
Lemma activated_walk_in_generator {A : Type} (block : Block) (ct : CType A) (x : A) :
  In x (_iter_indexed_block_data_objects block ct (Some true) true) ->
  component_active ct x = true
  /\ In x (activated_block_component_generator block ct).
Proof.
  destruct block as [bd|i a values]; simpl.
  - rewrite In_activated_walk_scalar. tauto.
  - rewrite in_flat_map. intros (bd & Hbd & Hx).
    apply In_activated_walk_scalar in Hx. destruct Hx as (_ & Hact & Hx).
    split; [assumption|]. apply In_generator_indexed. exists bd; auto.
Qed.

(** From an active root the activated walk yields every active component the
    generator yields. *)
Lemma generator_in_activated_walk {A : Type} (block : Block) (ct : CType A) (x : A) :
  root_active block = true ->
  component_active ct x = true ->
  In x (activated_block_component_generator block ct) ->
  In x (_iter_indexed_block_data_objects block ct (Some true) true).
Proof.
  destruct block as [bd|i a values]; simpl; intros Hroot Hact Hx.
  - apply In_activated_walk_scalar; auto.
  - apply In_generator_indexed in Hx. destruct Hx as (bd & Hbd & Hx).
    rewrite in_flat_map. exists bd. split; [assumption|].
    apply In_activated_walk_scalar. repeat split; auto.
    rewrite forallb_forall in Hroot. auto.
Qed.

(** ** Equalities and inequalities *)

Lemma equality_test_spec (f : Q -> Q) (c : ConstraintData) :
  (forall q, f q = q) ->
  is_not_None (con_upper c) && is_not_None (con_lower c)
  && bounds_equal f (con_upper c) (con_lower c) = true
  <-> is_equality c.
Proof.
  intros Hf. unfold is_equality.
  destruct (con_upper c) as [u|], (con_lower c) as [l|]; simpl.
  - rewrite !Hf, Qeq_bool_iff. split.
    + intros E. exists l, u. auto.
    + intros (l' & u' & [= <-] & [= <-] & E). exact E.
  - split; [discriminate | intros (l' & u' & E & _); discriminate].
  - split; [discriminate | intros (l' & u' & _ & E & _); discriminate].
  - split; [discriminate | intros (l' & u' & E & _); discriminate].
Qed.

Lemma inequality_test_spec (c : ConstraintData) :
  is_None (con_upper c) || is_None (con_lower c) = true <-> is_inequality c.
Proof.
  unfold is_inequality.
  destruct (con_upper c), (con_lower c); simpl;
    intuition (discriminate || auto).
Qed.

Lemma value_id (q : Q) : value q = q.
Proof. reflexivity. Qed.

Lemma In_total_equalities (block : Block) (c : ConstraintData) :
  In c (total_equalities_generator block)
  <-> In c (activated_block_component_generator block Constraint) /\ is_equality c.
Proof.
  unfold total_equalities_generator.
  now rewrite filter_In, (equality_test_spec (fun x => x)).
Qed.

Lemma In_activated_equalities (block : Block) (c : ConstraintData) :
  In c (activated_equalities_generator block)
  <-> In c (_iter_indexed_block_data_objects block Constraint (Some true) true)
      /\ is_equality c.
Proof.
  unfold activated_equalities_generator.
  now rewrite filter_In, (equality_test_spec value c value_id).
Qed.

Lemma In_deactivated_constraints (block : Block) (c : ConstraintData) :
  In c (deactivated_constraints_generator block)
  <-> In c (activated_block_component_generator block Constraint)
      /\ con_active c = false.
Proof.
  unfold deactivated_constraints_generator.
  now rewrite filter_In, negb_true_iff.
Qed.

Lemma In_deactivated_equalities (block : Block) (c : ConstraintData) :
  In c (deactivated_equalities_generator block)
  <-> In c (deactivated_constraints_generator block) /\ is_equality c.
Proof.
  unfold deactivated_equalities_generator.
  rewrite filter_In, In_total_equalities, In_deactivated_constraints,
    negb_true_iff. tauto.
Qed.

Lemma In_total_inequalities (block : Block) (c : ConstraintData) :
  In c (total_inequalities_generator block)
  <-> In c (activated_block_component_generator block Constraint)
      /\ is_inequality c.
Proof.
  unfold total_inequalities_generator.
  now rewrite filter_In, inequality_test_spec.
Qed.

Lemma In_activated_inequalities (block : Block) (c : ConstraintData) :
  In c (activated_inequalities_generator block)
  <-> In c (_iter_indexed_block_data_objects block Constraint (Some true) true)
      /\ is_inequality c.
Proof.
  unfold activated_inequalities_generator.
  now rewrite filter_In, inequality_test_spec.
Qed.

Lemma In_deactivated_inequalities (block : Block) (c : ConstraintData) :
  In c (deactivated_inequalities_generator block)
  <-> In c (deactivated_constraints_generator block) /\ is_inequality c.
Proof.
  unfold deactivated_inequalities_generator.
  rewrite filter_In, In_total_inequalities, In_deactivated_constraints,
    negb_true_iff. tauto.
Qed.

Lemma equality_excludes_inequality (c : ConstraintData) :
  ~ (is_equality c /\ is_inequality c).
Proof.
  intros [(l & u & El & Eu & _) [E|E]]; congruence.
Qed.

(** C3: a constraint is classified as an equality iff both bounds are present
    and numerically equal, and as an inequality iff at least one bound is
    absent; the total, activated and deactivated classifiers apply that same
    rule, each to its own constraint stream; a constraint with neither bound is
    an inequality and never an equality. *)
Theorem constraint_classification (block : Block) (c : ConstraintData) :
  (In c (total_equalities_generator block)
   <-> In c (activated_block_component_generator block Constraint)
       /\ is_equality c)
  /\ (In c (activated_equalities_generator block)
      <-> In c (_iter_indexed_block_data_objects block Constraint (Some true) true)
          /\ is_equality c)
  /\ (In c (deactivated_equalities_generator block)
      <-> In c (deactivated_constraints_generator block) /\ is_equality c)
  /\ (In c (total_inequalities_generator block)
      <-> In c (activated_block_component_generator block Constraint)
          /\ is_inequality c)
  /\ (In c (activated_inequalities_generator block)
      <-> In c (_iter_indexed_block_data_objects block Constraint (Some true) true)
          /\ is_inequality c)
  /\ (In c (deactivated_inequalities_generator block)
      <-> In c (deactivated_constraints_generator block) /\ is_inequality c)
  /\ (forall i a body,
         is_inequality (mkCon i a None None body)
         /\ ~ is_equality (mkCon i a None None body))
  /\ ~ (is_equality c /\ is_inequality c).
Proof.
  split; [apply In_total_equalities|].
  split; [apply In_activated_equalities|].
  split; [apply In_deactivated_equalities|].
  split; [apply In_total_inequalities|].
  split; [apply In_activated_inequalities|].
  split; [apply In_deactivated_inequalities|].
  split.
  - intros i a body.
    split; [left; reflexivity | intros (l & u & E & _); discriminate].
  - apply equality_excludes_inequality.
Qed.

(** ** Activated, deactivated, total *)

Section Partitions.
Context {A : Type} {I : Identity A}.
Hypothesis same_spec : forall x y : A, same x y = true <-> x = y.

(** Deactivated computed as a difference. *)
Lemma partitions_difference (act total : list A) :
  (forall x, In x act -> In x total) ->
  partitions act (difference total act) total.
Proof.
  intros Hsub. split; intros x.
  - rewrite (In_difference same_spec). tauto.
  - rewrite (In_difference same_spec). split.
    + intros Hx. destruct (contains act x) eqn:E.
      * left. now apply (contains_In same_spec).
      * right. split; [assumption | now apply (contains_false same_spec)].
    + intros [Hx|[Hx _]]; auto.
Qed.

(** Activated and deactivated filtered out of one stream by a flag. *)
Lemma partitions_by_flag (flag : A -> bool) (stream : list A) :
  partitions (ComponentSet (filter flag stream))
             (ComponentSet (filter (fun x => negb (flag x)) stream))
             (ComponentSet stream).
Proof.
  split; intros x; rewrite !(In_ComponentSet same_spec), !filter_In,
    negb_true_iff.
  - intros [[_ E] [_ F]]. congruence.
  - destruct (flag x); intuition discriminate.
Qed.
End Partitions.

Lemma In_total_blocks_set (block x : Block) :
  In x (total_blocks_set block)
  <-> x = block
      \/ In x (map ScalarBlock
                 (_iter_indexed_block_data_objects block BlockT None true)).
Proof.
  unfold total_blocks_set.
  rewrite (In_add Block_same_spec), (In_ComponentSet Block_same_spec). tauto.
Qed.

Lemma In_activated_blocks_set (block x : Block) :
  In x (activated_blocks_set block)
  <-> block_active block = true
      /\ (x = block
          \/ In x (map ScalarBlock
                     (_iter_indexed_block_data_objects block BlockT (Some true) true))).
Proof.
  unfold activated_blocks_set. destruct (block_active block).
  - rewrite (In_fold_add Block_same_spec), (In_add Block_same_spec); simpl. tauto.
  - simpl. intuition discriminate.
Qed.

Lemma In_greybox_block_set (block : Block) (g : ExternalGreyBoxBlockData) :
  In g (greybox_block_set block)
  <-> In g (activated_block_component_generator block ExternalGreyBoxBlock).
Proof.
  unfold greybox_block_set. rewrite (In_fold_add GreyBox_same_spec); simpl. tauto.
Qed.

Lemma In_activated_greybox_block_set (block : Block) (g : ExternalGreyBoxBlockData) :
  In g (activated_greybox_block_set block)
  <-> In g (greybox_block_set block) /\ gb_active g = true.
Proof.
  unfold activated_greybox_block_set.
  rewrite (In_fold_add_if GreyBox_same_spec); simpl. tauto.
Qed.

Lemma NoDup_greybox_block_set (block : Block) : NoDup (greybox_block_set block).
Proof. apply (NoDup_fold_add GreyBox_same_spec); constructor. Qed.

Lemma NoDup_activated_greybox_block_set (block : Block) :
  NoDup (activated_greybox_block_set block).
Proof. apply (NoDup_fold_add_if GreyBox_same_spec); constructor. Qed.

Lemma blocks_partition (block : Block) :
  partitions (activated_blocks_set block) (deactivated_blocks_set block)
             (total_blocks_set block).
Proof.
  apply (partitions_difference Block_same_spec). intros x.
  rewrite In_activated_blocks_set, In_total_blocks_set, !in_map_iff.
  intros (_ & [E|(bd & E & Hbd)]); [left; exact E | right].
  exists bd. split; [assumption | now apply iter_activated_total].
Qed.

Lemma greybox_blocks_partition (block : Block) :
  partitions (activated_greybox_block_set block)
             (deactivated_greybox_block_set block) (greybox_block_set block).
Proof.
  apply (partitions_difference GreyBox_same_spec). intros g.
  rewrite In_activated_greybox_block_set. tauto.
Qed.

Lemma equalities_disjoint_and_within_total (block : Block) (c : ConstraintData) :
  ~ (In c (activated_equalities_set block) /\ In c (deactivated_equalities_set block))
  /\ (In c (activated_equalities_set block) \/ In c (deactivated_equalities_set block)
      -> In c (total_equalities_set block)).
Proof.
  unfold activated_equalities_set, deactivated_equalities_set, total_equalities_set.
  rewrite !(In_ComponentSet ConstraintData_same_spec), In_activated_equalities,
    In_deactivated_equalities, In_total_equalities, In_deactivated_constraints.
  split.
  - intros [[Hw _] [[_ E] _]].
    apply (activated_walk_in_generator block Constraint) in Hw. simpl in Hw.
    destruct Hw; congruence.
  - intros [[Hw He]|[[Hg _] He]]; split; auto.
    now apply (activated_walk_in_generator block Constraint) in Hw.
Qed.

Lemma inequalities_disjoint_and_within_total (block : Block) (c : ConstraintData) :
  ~ (In c (activated_inequalities_set block)
     /\ In c (deactivated_inequalities_set block))
  /\ (In c (activated_inequalities_set block)
      \/ In c (deactivated_inequalities_set block)
      -> In c (total_inequalities_set block)).
Proof.
  unfold activated_inequalities_set, deactivated_inequalities_set,
    total_inequalities_set.
  rewrite !(In_ComponentSet ConstraintData_same_spec), In_activated_inequalities,
    In_deactivated_inequalities, In_total_inequalities, In_deactivated_constraints.
  split.
  - intros [[Hw _] [[_ E] _]].
    apply (activated_walk_in_generator block Constraint) in Hw. simpl in Hw.
    destruct Hw; congruence.
  - intros [[Hw He]|[[Hg _] He]]; split; auto.
    now apply (activated_walk_in_generator block Constraint) in Hw.
Qed.

Lemma equalities_partition (block : Block) :
  root_active block = true ->
  partitions (activated_equalities_set block) (deactivated_equalities_set block)
             (total_equalities_set block).
Proof.
  intros Hroot. split; intros c.
  - apply equalities_disjoint_and_within_total.
  - split; [|apply equalities_disjoint_and_within_total].
    unfold activated_equalities_set, deactivated_equalities_set,
      total_equalities_set.
    rewrite !(In_ComponentSet ConstraintData_same_spec), In_activated_equalities,
      In_deactivated_equalities, In_total_equalities, In_deactivated_constraints.
    intros [Hg He]. destruct (con_active c) eqn:E; [left | right]; auto.
    split; [|assumption].
    now apply (generator_in_activated_walk block Constraint).
Qed.

Lemma inequalities_partition (block : Block) :
  root_active block = true ->
  partitions (activated_inequalities_set block)
             (deactivated_inequalities_set block) (total_inequalities_set block).
Proof.
  intros Hroot. split; intros c.
  - apply inequalities_disjoint_and_within_total.
  - split; [|apply inequalities_disjoint_and_within_total].
    unfold activated_inequalities_set, deactivated_inequalities_set,
      total_inequalities_set.
    rewrite !(In_ComponentSet ConstraintData_same_spec), In_activated_inequalities,
      In_deactivated_inequalities, In_total_inequalities,
      In_deactivated_constraints.
    intros [Hg He]. destruct (con_active c) eqn:E; [left | right]; auto.
    split; [|assumption].
    now apply (generator_in_activated_walk block Constraint).
Qed.

(** C2, as the code has it: for blocks, constraints, objectives and grey-box
    blocks the activated and deactivated sets are disjoint and their union is
    the total set, for every model.  For equalities and for inequalities the
    two sets are always disjoint and inside the total set, and their union is
    the total set whenever the root block is active (each element of an
    indexed root). *)
Theorem activation_partitions (block : Block) :
  partitions (activated_blocks_set block) (deactivated_blocks_set block)
             (total_blocks_set block)
  /\ partitions (activated_constraints_set block)
                (deactivated_constraints_set block) (total_constraints_set block)
  /\ partitions (activated_objectives_set block)
                (deactivated_objectives_set block) (total_objectives_set block)
  /\ partitions (activated_greybox_block_set block)
                (deactivated_greybox_block_set block) (greybox_block_set block)
  /\ (forall c,
         ~ (In c (activated_equalities_set block)
            /\ In c (deactivated_equalities_set block))
         /\ (In c (activated_equalities_set block)
             \/ In c (deactivated_equalities_set block)
             -> In c (total_equalities_set block)))
  /\ (forall c,
         ~ (In c (activated_inequalities_set block)
            /\ In c (deactivated_inequalities_set block))
         /\ (In c (activated_inequalities_set block)
             \/ In c (deactivated_inequalities_set block)
             -> In c (total_inequalities_set block)))
  /\ (root_active block = true ->
      partitions (activated_equalities_set block)
                 (deactivated_equalities_set block) (total_equalities_set block)
      /\ partitions (activated_inequalities_set block)
                    (deactivated_inequalities_set block)
                    (total_inequalities_set block)).
Proof.
  split; [apply blocks_partition|].
  split; [apply (partitions_by_flag ConstraintData_same_spec)|].
  split; [apply (partitions_by_flag ObjectiveData_same_spec)|].
  split; [apply greybox_blocks_partition|].
  split; [intros c; apply equalities_disjoint_and_within_total|].
  split; [intros c; apply inequalities_disjoint_and_within_total|].
  intros Hroot. split; [apply equalities_partition | apply inequalities_partition];
    assumption.
Qed.

(** The partition of equalities and inequalities on a model with an active
    root, an active and an inactive sub-block. *)
Lemma activation_partitions_witness :
  root_active model_tree = true
  /\ partitions (activated_equalities_set model_tree)
                (deactivated_equalities_set model_tree)
                (total_equalities_set model_tree)
  /\ partitions (activated_inequalities_set model_tree)
                (deactivated_inequalities_set model_tree)
                (total_inequalities_set model_tree).
Proof.
  split; [reflexivity|].
  apply (proj2 (proj2 (proj2 (proj2 (proj2 (proj2
           (activation_partitions model_tree))))))).
  reflexivity.
Defined.

(** C2 as stated fails: under an inactive root the equality [c_sum] and the
    inequality [c_upper] are in the total sets and in neither the activated
    nor the deactivated ones. *)
Lemma inactive_root_breaks_partition :
  In c_sum (total_equalities_set model_root_off)
  /\ ~ In c_sum (activated_equalities_set model_root_off)
  /\ ~ In c_sum (deactivated_equalities_set model_root_off)
  /\ In c_upper (total_inequalities_set model_root_off)
  /\ ~ In c_upper (activated_inequalities_set model_root_off)
  /\ ~ In c_upper (deactivated_inequalities_set model_root_off)
  /\ ~ partitions (activated_equalities_set model_root_off)
                  (deactivated_equalities_set model_root_off)
                  (total_equalities_set model_root_off).
Proof.
  assert (T : total_equalities_set model_root_off = [c_sum]) by reflexivity.
  assert (A : activated_equalities_set model_root_off = []) by reflexivity.
  assert (D : deactivated_equalities_set model_root_off = []) by reflexivity.
  assert (T' : total_inequalities_set model_root_off = [c_upper]) by reflexivity.
  assert (A' : activated_inequalities_set model_root_off = []) by reflexivity.
  assert (D' : deactivated_inequalities_set model_root_off = []) by reflexivity.
  rewrite T, A, D, T', A', D'. simpl.
  repeat split; auto; try tauto.
  intros [_ H]. destruct (proj1 (H c_sum)); simpl; auto.
Qed.

(** ** Grey-box contributions *)

Lemma greybox_equalities_fold (l : list ExternalGreyBoxBlockData) (n : nat) :
  fold_left
    (fun equalities g =>
       equalities + length (gb_outputs g)
       + n_equality_constraints (get_external_model g)) l n
  = n + list_sum (map greybox_contribution l).
Proof.
  revert n; induction l as [|g l IH]; intros n; simpl; [lia|].
  rewrite IH. unfold greybox_contribution. lia.
Qed.

Lemma number_activated_greybox_equalities_sum (block : Block) :
  number_activated_greybox_equalities block
  = list_sum (map greybox_contribution (activated_greybox_block_set block)).
Proof.
  unfold number_activated_greybox_equalities.
  now rewrite greybox_equalities_fold.
Qed.

Lemma In_greybox_variables_fold (gs : list ExternalGreyBoxBlockData)
    (s : list VarData) (v : VarData) :
  In v (fold_left
          (fun var_set g =>
             fold_left add (map_values (gb_outputs g))
               (fold_left add (map_values (gb_inputs g)) var_set)) gs s)
  <-> In v s \/ exists g, In g gs /\ In v (greybox_node_variables g).
Proof.
  revert s; induction gs as [|g gs IH]; intros s; simpl.
  - split; [auto | intros [H|(g & [] & _)]; exact H].
  - rewrite IH, !(In_fold_add VarData_same_spec).
    unfold greybox_node_variables. split.
    + intros [[[H|H]|H]|(h & Hh & H)]; auto.
      * right. exists g. rewrite in_app_iff. auto.
      * right. exists g. rewrite in_app_iff. auto.
      * right. exists h. auto.
    + intros [H|(h & [<-|Hh] & H)]; auto.
      * rewrite in_app_iff in H. tauto.
      * right. exists h. auto.
Qed.

Lemma In_greybox_variables (block : Block) (v : VarData) :
  In v (greybox_variables block)
  <-> exists g, In g (activated_greybox_block_set block)
                /\ In v (greybox_node_variables g).
Proof.
  unfold greybox_variables. rewrite In_greybox_variables_fold; simpl. tauto.
Qed.

Lemma NoDup_greybox_variables_fold (gs : list ExternalGreyBoxBlockData)
    (s : list VarData) :
  NoDup s ->
  NoDup (fold_left
           (fun var_set g =>
              fold_left add (map_values (gb_outputs g))
                (fold_left add (map_values (gb_inputs g)) var_set)) gs s).
Proof.
  revert s; induction gs as [|g gs IH]; intros s Hs; simpl; [assumption|].
  apply IH. now repeat apply (NoDup_fold_add VarData_same_spec).
Qed.

(** What [m[k]] finds is among the values iterated. *)
Lemma getitem_In_map_values (m : list (string * VarData)) (k : string)
    (v : VarData) :
  getitem m k = Some v -> In v (map_values m).
Proof.
  intros E. unfold map_values. rewrite in_flat_map. exists k. split.
  - induction m as [|[k' w] m IH]; simpl in *; [discriminate|].
    destruct (String.eqb k k') eqn:Ek.
    + apply String.eqb_eq in Ek. auto.
    + auto.
  - rewrite E. left; reflexivity.
Qed.

(** ** Variables *)

Lemma In_variables_set (block : Block) (v : VarData) :
  In v (variables_set block)
  <-> In v (_iter_indexed_block_data_objects block Var (Some true) true)
      \/ In v (greybox_variables block).
Proof.
  unfold variables_set. rewrite !(In_fold_add VarData_same_spec); simpl. tauto.
Qed.

Lemma NoDup_variables_set (block : Block) : NoDup (variables_set block).
Proof.
  unfold variables_set. repeat apply (NoDup_fold_add VarData_same_spec).
  constructor.
Qed.

(** X2: the fixed-variables set is the set of the fixed members of
    [variables_set], grey-box variables included. *)
Lemma In_fixed_variables_set (block : Block) (v : VarData) :
  In v (fixed_variables_set block)
  <-> In v (variables_set block) /\ var_fixed v = true.
Proof.
  unfold fixed_variables_set, fixed_variables_generator.
  rewrite (In_ComponentSet VarData_same_spec), in_app_iff, !filter_In,
    In_variables_set. tauto.
Qed.

Lemma In_unfixed_variables_set (block : Block) (v : VarData) :
  In v (unfixed_variables_set block)
  <-> In v (_iter_indexed_block_data_objects block Var (Some true) true)
      /\ var_fixed v = false.
Proof.
  unfold unfixed_variables_set, unfixed_variables_generator.
  now rewrite (In_ComponentSet VarData_same_spec), filter_In, negb_true_iff.
Qed.

Lemma In_identify_variables (e : Expr) (v : VarData) :
  In v (identify_variables e) <-> In v (leaves e).
Proof. apply (In_ComponentSet VarData_same_spec). Qed.

Lemma In_fold_bodies (cs : list ConstraintData) (s : list VarData) (v : VarData) :
  In v (fold_left
          (fun var_set c => fold_left add (identify_variables (con_body c)) var_set)
          cs s)
  <-> In v s \/ exists c, In c cs /\ In v (leaves (con_body c)).
Proof.
  revert s; induction cs as [|c cs IH]; intros s; simpl.
  - split; [auto | intros [H|(c & [] & _)]; exact H].
  - rewrite IH, (In_fold_add VarData_same_spec), In_identify_variables. split.
    + intros [[H|H]|(d & Hd & H)]; auto.
      * right. exists c. auto.
      * right. exists d. auto.
    + intros [H|(d & [<-|Hd] & H)]; auto.
      right. exists d. auto.
Qed.

Lemma In_variables_in_activated_constraints_set (block : Block) (v : VarData) :
  In v (variables_in_activated_constraints_set block)
  <-> (exists c,
          In c (_iter_indexed_block_data_objects block Constraint (Some true) true)
          /\ In v (leaves (con_body c)))
      \/ In v (greybox_variables block).
Proof.
  unfold variables_in_activated_constraints_set.
  rewrite (In_fold_add VarData_same_spec), In_fold_bodies; simpl. tauto.
Qed.

Lemma In_variables_in_activated_equalities_set (block : Block) (v : VarData) :
  In v (variables_in_activated_equalities_set block)
  <-> (exists c, In c (activated_equalities_generator block)
                 /\ In v (leaves (con_body c)))
      \/ In v (greybox_variables block).
Proof.
  unfold variables_in_activated_equalities_set.
  rewrite (In_fold_add VarData_same_spec), In_fold_bodies; simpl. tauto.
Qed.


(** ** Degrees of freedom *)


(** ** Grey boxes in the counts *)

(** C5: the activated grey boxes add [len(outputs) + n_equality_constraints()]
    each to the equality and constraint counts and nothing to the inequality
    counts; a single activated grey box with two outputs and three internal
    equalities gives [number_activated_greybox_equalities = 5]; every input
    and output variable of an activated grey box is in [variables_set]. *)
Theorem greybox_contributions (block : Block) :
  number_activated_greybox_equalities block
  = list_sum (map greybox_contribution (activated_greybox_block_set block))
  /\ number_total_constraints block
     = count (activated_block_component_generator block Constraint)
       + list_sum (map greybox_contribution (activated_greybox_block_set block))
  /\ number_total_equalities block
     = count (total_equalities_generator block)
       + list_sum (map greybox_contribution (activated_greybox_block_set block))
  /\ number_activated_equalities block
     = count (activated_equalities_generator block)
       + list_sum (map greybox_contribution (activated_greybox_block_set block))
  /\ number_total_inequalities block = count (total_inequalities_generator block)
  /\ number_activated_inequalities block
     = count (activated_inequalities_generator block)
  /\ (forall g,
         activated_greybox_block_set block = [g] ->
         length (gb_outputs g) = 2 ->
         n_equality_constraints (get_external_model g) = 3 ->
         number_activated_greybox_equalities block = 5)
  /\ (forall g k v,
         In g (activated_greybox_block_set block) ->
         getitem (gb_inputs g) k = Some v \/ getitem (gb_outputs g) k = Some v ->
         In v (variables_set block)).
Proof.
  unfold number_total_constraints, number_total_equalities,
    number_activated_equalities.
  rewrite number_activated_greybox_equalities_sum.
  repeat (split; [reflexivity|]). split.
  - intros g E Ho Hn. rewrite E. unfold greybox_contribution; simpl.
    rewrite Ho, Hn. reflexivity.
  - intros g k v Hg Hv. apply In_variables_set. right.
    apply In_greybox_variables. exists g. split; [assumption|].
    unfold greybox_node_variables. rewrite in_app_iff.
    destruct Hv as [Hv|Hv]; [left | right];
      exact (getitem_In_map_values _ _ Hv).
Qed.

(** The grey-box scenario on [model_grey]: two outputs, three internal
    equalities, one input. *)
Lemma greybox_contributions_witness :
  number_activated_greybox_equalities model_grey = 5
  /\ In u_in (variables_set model_grey)
  /\ In out1 (variables_set model_grey)
  /\ In out2 (variables_set model_grey).
Proof.
  pose proof (greybox_contributions model_grey) as H.
  destruct H as (_ & _ & _ & _ & _ & _ & Hfive & Hvars).
  split; [apply (Hfive grey); reflexivity|].
  assert (Hg : In grey (activated_greybox_block_set model_grey))
    by (left; reflexivity).
  split; [apply (Hvars grey "u"%string u_in Hg); left; reflexivity|].
  split; [apply (Hvars grey "y1"%string out1 Hg); right; reflexivity|].
  apply (Hvars grey "y2"%string out2 Hg); right; reflexivity.
Defined.

(** ** Counts and cardinalities *)

(** C7, as the code has it: the variable counts are cardinalities of
    duplicate-free sets; [number_total_constraints] and
    [number_activated_constraints] count the constraint stream element by
    element, never less than the cardinality of the corresponding set and
    equal to it exactly when the stream yields no constraint twice. *)
Theorem counts_and_cardinalities (block : Block) :
  (NoDup (variables_set block)
   /\ number_variables block = length (variables_set block))
  /\ (NoDup (fixed_variables_set block)
      /\ number_fixed_variables block = length (fixed_variables_set block))
  /\ (NoDup (unfixed_variables_set block)
      /\ number_unfixed_variables block = length (unfixed_variables_set block))
  /\ (number_total_constraints block
      = length (total_constraints_set block)
        + number_activated_greybox_equalities block
      <-> NoDup (activated_block_component_generator block Constraint))
  /\ (number_activated_constraints block
      = length (activated_constraints_set block)
      <-> NoDup (activated_constraints_generator block))
  /\ length (total_constraints_set block)
     + number_activated_greybox_equalities block
     <= number_total_constraints block
  /\ length (activated_constraints_set block)
     <= number_activated_constraints block.
Proof.
  split; [split; [apply NoDup_variables_set | reflexivity]|].
  split; [split; [apply (NoDup_ComponentSet VarData_same_spec) | reflexivity]|].
  split; [split; [apply (NoDup_ComponentSet VarData_same_spec) | reflexivity]|].
  unfold number_total_constraints, number_activated_constraints,
    total_constraints_set, activated_constraints_set, count.
  pose proof (length_ComponentSet_le ConstraintData_same_spec
                (activated_block_component_generator block Constraint)) as Ht.
  pose proof (length_ComponentSet_le ConstraintData_same_spec
                (activated_constraints_generator block)) as Ha.
  split.
  { rewrite <- (length_ComponentSet_iff ConstraintData_same_spec). lia. }
  split.
  { rewrite <- (length_ComponentSet_iff ConstraintData_same_spec). lia. }
  lia.
Qed.

(** C7 as stated fails: a constraint owned by the root and referenced again
    from an active sub-block is counted twice and is one element of the set. *)
Lemma aliased_constraint_counted_twice :
  number_total_constraints model_alias = 2
  /\ length (total_constraints_set model_alias)
     + number_activated_greybox_equalities model_alias = 1
  /\ number_activated_constraints model_alias = 2
  /\ length (activated_constraints_set model_alias) = 1.
Proof. repeat split; reflexivity. Qed.

(** ** Fixed and unfixed variables *)

(** C8 fails on the code: [fixed_variables_generator] adds the grey-box
    variables, [unfixed_variables_generator] does not.  On [model_grey] the
    unfixed input [u_in] and output [out1] are in [variables_set] and missing
    from [unfixed_variables_set], while the fixed output [out2] is in
    [fixed_variables_set]. *)
Theorem unfixed_variables_miss_greybox :
  In u_in (variables_set model_grey)
  /\ var_fixed u_in = false
  /\ ~ In u_in (unfixed_variables_set model_grey)
  /\ unfixed_variables_set model_grey = []
  /\ variables_set model_grey = [u_in; out1; out2]
  /\ fixed_variables_set model_grey = [out2].
Proof.
  assert (U : unfixed_variables_set model_grey = []) by reflexivity.
  assert (V : variables_set model_grey = [u_in; out1; out2]) by reflexivity.
  rewrite U, V. repeat split; simpl; auto.
Qed.

(** ** Variables near their bounds *)

Lemma py_max_Qmax (a b : Q) : py_max a b = Qmax a b.
Proof.
  unfold py_max, Qgt_bool, Qmax, GenericMinMax.gmax.
  destruct (Qle_bool b a) eqn:E; simpl.
  - apply Qle_bool_iff in E. destruct (a ?= b)%Q eqn:C; try reflexivity.
    apply Qlt_alt in C. exfalso. apply (Qlt_irrefl a).
    apply Qlt_le_trans with (y := b); assumption.
  - destruct (a ?= b)%Q eqn:C; try reflexivity; exfalso.
    + apply Qeq_alt in C.
      assert (H : Qle_bool b a = true)
        by (apply Qle_bool_iff; rewrite C; apply Qle_refl).
      congruence.
    + apply Qgt_alt in C.
      assert (H : Qle_bool b a = true)
        by (apply Qle_bool_iff, Qlt_le_weak; exact C).
      congruence.
Qed.

Lemma magnitude_spec (v : VarData) : magnitude v = spec_magnitude v.
Proof.
  unfold magnitude, spec_magnitude, value.
  destruct (var_ub v), (var_lb v); reflexivity.
Qed.

Lemma bound_tolerance_spec (abs_tol rel_tol : Q) (v : VarData) :
  bound_tolerance abs_tol rel_tol v = Qmax abs_tol (spec_magnitude v * rel_tol).
Proof.
  unfold bound_tolerance. now rewrite py_max_Qmax, magnitude_spec.
Qed.

Lemma bound_tolerance_nonneg (abs_tol rel_tol : Q) (v : VarData) :
  (0 <= abs_tol)%Q -> (0 <= bound_tolerance abs_tol rel_tol v)%Q.
Proof.
  intros H. rewrite bound_tolerance_spec.
  apply Qle_trans with (y := abs_tol); [assumption | apply Q.le_max_l].
Qed.

Lemma near_a_bound_spec (skip_lb skip_ub : bool) (t : Q) (v : VarData) (x : Q) :
  near_a_bound skip_lb skip_ub t v x = true
  <-> within_tolerance skip_lb skip_ub t v x.
Proof.
  unfold near_a_bound, within_tolerance, value.
  destruct (var_ub v) as [u|], (var_lb v) as [l|], skip_ub, skip_lb; simpl;
    try destruct (Qle_bool (u - x) t) eqn:Eu;
    try destruct (Qle_bool (x - l) t) eqn:El;
    try (apply Qle_bool_iff in Eu); try (apply Qle_bool_iff in El);
    (split;
     [ intros H; try discriminate H;
       first [ left; eexists; repeat split; eassumption
             | right; eexists; repeat split; eassumption ]
     | intros [(u' & Hu & Hs & Hle)|(l' & Hl & Hs & Hle)];
       try discriminate; try reflexivity;
       try (injection Hu as <-); try (injection Hl as <-);
       exfalso;
       first [ apply Qle_bool_iff in Hle; congruence ] ]).
Qed.

Lemma In_variables_near_bounds (block : Block) (tol : option Q)
    (relative : option bool) (skip_lb skip_ub : bool) (abs_tol rel_tol : Q)
    (v : VarData) :
  In v (variables_near_bounds_generator block tol relative skip_lb skip_ub
          abs_tol rel_tol)
  <-> In v (_iter_indexed_block_data_objects block Var (Some true) true)
      /\ exists x,
           var_value v = Some x
           /\ within_tolerance skip_lb skip_ub
                (bound_tolerance (effective_abs_tol tol abs_tol)
                                 (effective_rel_tol tol rel_tol) v) v x.
Proof.
  unfold variables_near_bounds_generator. rewrite in_flat_map. split.
  - intros (w & Hw & Hv). destruct (var_value w) as [x|] eqn:E; [|destruct Hv].
    destruct (near_a_bound _ _ _ w x) eqn:N; [|destruct Hv].
    destruct Hv as [<-|[]]. split; [assumption|].
    exists x. split; [assumption | now apply near_a_bound_spec].
  - intros (Hv & x & E & N). exists v. split; [assumption|].
    rewrite E. apply near_a_bound_spec in N. rewrite N. left; reflexivity.
Qed.

(** C6: with the deprecated [tol] argument absent, a variable is yielded iff
    the activated walk yields it, it has a value, and its distance to a
    present, non-skipped upper bound or to a present, non-skipped lower bound
    is at most [max(abs_tol, magnitude * rel_tol)], the magnitude being
    [upper - lower], or the absolute value of the only bound, or 0; a variable
    without a value is not yielded.  With bounds [0, 10], value 9.9999 and the
    default tolerances 1e-4 the tolerance is 1e-3, the distance to the upper
    bound is 1e-4, and the variable is yielded. *)
Theorem near_bound_rule (block : Block) (relative : option bool)
    (skip_lb skip_ub : bool) (abs_tol rel_tol : Q) (v : VarData) :
  (In v (variables_near_bounds_generator block None relative skip_lb skip_ub
           abs_tol rel_tol)
   <-> In v (_iter_indexed_block_data_objects block Var (Some true) true)
       /\ exists x,
            var_value v = Some x
            /\ within_tolerance skip_lb skip_ub
                 (Qmax abs_tol (spec_magnitude v * rel_tol)) v x)
  /\ (var_value v = None ->
      ~ In v (variables_near_bounds_generator block None relative skip_lb skip_ub
                abs_tol rel_tol))
  /\ default_abs_tol = (1 # 10000)%Q
  /\ default_rel_tol = (1 # 10000)%Q
  /\ spec_magnitude v_near = (10 - 0)%Q
  /\ (Qmax default_abs_tol (spec_magnitude v_near * default_rel_tol)
      == 1 # 1000)%Q
  /\ (10 - (99999 # 10000) == 1 # 10000)%Q
  /\ In v_near
        (variables_near_bounds_generator model_near None None false false
           default_abs_tol default_rel_tol).
Proof.
  split.
  { rewrite In_variables_near_bounds; simpl.
    now rewrite bound_tolerance_spec. }
  split.
  { rewrite In_variables_near_bounds. intros E (_ & x & F & _). congruence. }
  repeat split; try reflexivity.
  left; reflexivity.
Qed.

(** C10: when the effective tolerance is not negative, a variable of the
    activated walk whose value lies strictly above a present, non-skipped
    upper bound, or strictly below a present, non-skipped lower bound, is
    yielded, whatever the size of the violation. *)
Theorem violated_bound_is_near (block : Block) (tol : option Q)
    (relative : option bool) (skip_lb skip_ub : bool) (abs_tol rel_tol : Q)
    (v : VarData) (x : Q) :
  In v (_iter_indexed_block_data_objects block Var (Some true) true) ->
  var_value v = Some x ->
  (0 <= bound_tolerance (effective_abs_tol tol abs_tol)
                        (effective_rel_tol tol rel_tol) v)%Q ->
  (exists u, var_ub v = Some u /\ skip_ub = false /\ (u < x)%Q)
  \/ (exists l, var_lb v = Some l /\ skip_lb = false /\ (x < l)%Q) ->
  In v (variables_near_bounds_generator block tol relative skip_lb skip_ub
          abs_tol rel_tol).
Proof.
  intros Hv E Ht Hout. apply In_variables_near_bounds. split; [assumption|].
  exists x. split; [assumption|].
  destruct Hout as [(u & Hu & Hs & Hlt)|(l & Hl & Hs & Hlt)]; [left | right].
  - exists u. repeat split; auto.
    apply Qle_trans with (y := 0%Q); [|assumption]. lra.
  - exists l. repeat split; auto.
    apply Qle_trans with (y := 0%Q); [|assumption]. lra.
Qed.

(** A value of 1000 above the upper bound 10, with the default tolerances. *)
Lemma violated_bound_is_near_witness :
  var_value v_beyond = Some 1000%Q
  /\ var_ub v_beyond = Some 10%Q
  /\ (10 < 1000)%Q
  /\ In v_beyond
        (variables_near_bounds_generator model_beyond None None false false
           default_abs_tol default_rel_tol).
Proof.
  repeat (split; [reflexivity|]).
  apply (@violated_bound_is_near model_beyond None None false false
           default_abs_tol default_rel_tol v_beyond 1000%Q).
  - left; reflexivity.
  - reflexivity.
  - apply bound_tolerance_nonneg. discriminate.
  - left. exists 10%Q. repeat split; reflexivity.
Defined.

(** ** Deactivating a grey box *)

Lemma flat_map_map {A B C : Type} (f : B -> list C) (h : A -> B) (l : list A) :
  flat_map f (map h l) = flat_map (fun x => f (h x)) l.
Proof. induction l; simpl; congruence. Qed.

Lemma map_flat_map {A B C : Type} (h : B -> C) (f : A -> list B) (l : list A) :
  map h (flat_map f l) = flat_map (fun x => map h (f x)) l.
Proof. induction l; simpl; [reflexivity|]. now rewrite map_app, IHl. Qed.

Lemma filter_map_swap {A B : Type} (p : B -> bool) (h : A -> B) (l : list A) :
  filter p (map h l) = map h (filter (fun x => p (h x)) l).
Proof.
  induction l as [|x l IH]; simpl; [reflexivity|].
  destruct (p (h x)); simpl; congruence.
Qed.

Lemma deactivate_keeps_active (g : ExternalGreyBoxBlockData) (bd : BlockData) :
  blk_active (deactivate_greybox_data g bd) = blk_active bd.
Proof. destruct bd; reflexivity. Qed.

Lemma block_data_objects_deactivate (g : ExternalGreyBoxBlockData)
    (active : option bool) (bd : BlockData) :
  block_data_objects active (deactivate_greybox_data g bd)
  = map (deactivate_greybox_data g) (block_data_objects active bd).
Proof.
  induction bd as [i a v c o gs subs IH] using BlockData_tree_ind; simpl.
  destruct (matches active a); simpl; [|reflexivity]. f_equal.
  induction IH as [|s subs Hs _ IHsubs]; simpl; [reflexivity|].
  now rewrite map_app, Hs, IHsubs.
Qed.

(** A walk for a kind of component that deactivation does not touch. *)
Lemma component_data_objects_deactivate {A : Type} (ct : CType A)
    (g : ExternalGreyBoxBlockData) :
  (forall b, local_components ct (deactivate_greybox_data g b)
             = local_components ct b) ->
  forall bd active descend_into,
    component_data_objects (deactivate_greybox_data g bd) ct active descend_into
    = component_data_objects bd ct active descend_into.
Proof.
  intros Hlocal bd active descend_into. unfold component_data_objects.
  rewrite deactivate_keeps_active, block_data_objects_deactivate.
  destruct descend_into.
  - rewrite flat_map_map. apply flat_map_ext. intros b. now rewrite Hlocal.
  - destruct (matches active (blk_active bd)); simpl; [|reflexivity].
    now rewrite Hlocal.
Qed.

Lemma iter_deactivate {A : Type} (ct : CType A) (g : ExternalGreyBoxBlockData) :
  (forall b, local_components ct (deactivate_greybox_data g b)
             = local_components ct b) ->
  forall block active descend_into,
    _iter_indexed_block_data_objects (deactivate_greybox g block) ct active
      descend_into
    = _iter_indexed_block_data_objects block ct active descend_into.
Proof.
  intros Hlocal [bd|i a values] active descend_into; simpl.
  - now apply component_data_objects_deactivate.
  - rewrite flat_map_map. apply flat_map_ext. intros bd.
    now apply component_data_objects_deactivate.
Qed.

Lemma sub_blocks_deactivate (g : ExternalGreyBoxBlockData) (active : option bool)
    (bd : BlockData) :
  component_data_objects (deactivate_greybox_data g bd) BlockT active true
  = map (deactivate_greybox_data g)
        (component_data_objects bd BlockT active true).
Proof.
  unfold component_data_objects.
  rewrite block_data_objects_deactivate, flat_map_map, map_flat_map.
  apply flat_map_ext. intros [i a v c o gs subs]; simpl.
  rewrite filter_map_swap. f_equal. apply filter_ext.
  intros b. now rewrite deactivate_keeps_active.
Qed.

Lemma greybox_generator_deactivate (g : ExternalGreyBoxBlockData) (block : Block) :
  activated_block_component_generator (deactivate_greybox g block)
    ExternalGreyBoxBlock
  = map (deactivate_ref g)
        (activated_block_component_generator block ExternalGreyBoxBlock).
Proof.
  assert (L : forall b,
             component_data_objects (deactivate_greybox_data g b)
               ExternalGreyBoxBlock None false
             = map (deactivate_ref g)
                   (component_data_objects b ExternalGreyBoxBlock None false)).
  { intros [i a v c o gs subs]. now rewrite !component_data_objects_local. }
  unfold activated_block_component_generator.
  destruct block as [bd|i a values]; simpl; rewrite map_app; f_equal.
  - apply L.
  - rewrite sub_blocks_deactivate, flat_map_map, map_flat_map.
    apply flat_map_ext, L.
  - rewrite flat_map_map, map_flat_map. apply flat_map_ext, L.
  - rewrite !flat_map_map, map_flat_map.
    transitivity
      (flat_map (fun b => component_data_objects b ExternalGreyBoxBlock None false)
         (map (deactivate_greybox_data g)
            (flat_map (fun bd => component_data_objects bd BlockT (Some true) true)
               values))).
    + f_equal. rewrite map_flat_map. apply flat_map_ext.
      intros bd. apply sub_blocks_deactivate.
    + rewrite flat_map_map. apply flat_map_ext, L.
Qed.

(** After [g.deactivate()] the activated grey boxes are the former ones
    without [g]. *)
Lemma In_activated_greybox_after_deactivate (g h : ExternalGreyBoxBlockData)
    (block : Block) :
  In h (activated_greybox_block_set (deactivate_greybox g block))
  <-> In h (activated_greybox_block_set block) /\ h <> g.
Proof.
  rewrite !In_activated_greybox_block_set, !In_greybox_block_set,
    greybox_generator_deactivate, in_map_iff. unfold deactivate_ref. split.
  - intros [(y & E & Hy) Hact]. destruct (same y g) eqn:S.
    + subst h. discriminate Hact.
    + subst h. repeat split; auto.
      intros ->. rewrite (proj2 (GreyBox_same_spec g g) eq_refl) in S.
      discriminate.
  - intros [[Hh Hact] Hne]. split; [|assumption].
    exists h. split; [|assumption].
    destruct (same h g) eqn:S; [|reflexivity].
    apply GreyBox_same_spec in S. contradiction.
Qed.

Lemma In_greybox_variables_after_deactivate (g : ExternalGreyBoxBlockData)
    (block : Block) (v : VarData) :
  In v (greybox_variables (deactivate_greybox g block))
  <-> exists h, In h (activated_greybox_block_set block) /\ h <> g
                /\ In v (greybox_node_variables h).
Proof.
  rewrite In_greybox_variables.
  split; intros (h & Hh & Hv); exists h.
  - apply In_activated_greybox_after_deactivate in Hh. tauto.
  - split; [apply In_activated_greybox_after_deactivate|]; tauto.
Qed.

(** C9, as the code has it: [variables_set] contains [greybox_variables];
    deactivating a grey box that stays in the tree withdraws what that box
    alone contributed, from [variables_set] as well as from
    [variables_in_activated_constraints_set]: afterwards a variable is in
    [variables_set] iff the activated variable walk yields it or another
    activated grey box has it as input or output, and it is in
    [variables_in_activated_constraints_set] iff it occurs in the body of an
    activated constraint or another activated grey box has it. *)
Theorem greybox_deactivation_frame (block : Block)
    (g : ExternalGreyBoxBlockData) (v : VarData) :
  incl (greybox_variables block) (variables_set block)
  /\ (In v (variables_set (deactivate_greybox g block))
      <-> In v (_iter_indexed_block_data_objects block Var (Some true) true)
          \/ exists h, In h (activated_greybox_block_set block) /\ h <> g
                       /\ In v (greybox_node_variables h))
  /\ (In v (variables_in_activated_constraints_set (deactivate_greybox g block))
      <-> (exists c,
              In c (_iter_indexed_block_data_objects block Constraint
                      (Some true) true)
              /\ In v (leaves (con_body c)))
          \/ exists h, In h (activated_greybox_block_set block) /\ h <> g
                       /\ In v (greybox_node_variables h)).
Proof.
  split.
  { intros w Hw. apply In_variables_set. now right. }
  split.
  - rewrite In_variables_set, In_greybox_variables_after_deactivate,
      (iter_deactivate Var g); [tauto|].
    intros [? ? ? ? ? ? ?]; reflexivity.
  - rewrite In_variables_in_activated_constraints_set,
      In_greybox_variables_after_deactivate,
      (iter_deactivate Constraint g); [tauto|].
    intros [? ? ? ? ? ? ?]; reflexivity.
Qed.

(** C9 as stated fails: deactivating the only grey box of [model_grey], which
    stays in the tree, removes its input [u_in] from [variables_set]. *)
Lemma deactivated_greybox_leaves_variables_set :
  In grey (activated_greybox_block_set model_grey)
  /\ In u_in (greybox_node_variables grey)
  /\ In u_in (variables_set model_grey)
  /\ In (deactivated grey) (greybox_block_set (deactivate_greybox grey model_grey))
  /\ ~ In u_in (variables_set (deactivate_greybox grey model_grey))
  /\ variables_set (deactivate_greybox grey model_grey) = [].
Proof.
  assert (E : variables_set (deactivate_greybox grey model_grey) = [])
    by reflexivity.
  rewrite E. repeat split; simpl; auto.
Qed.

(** ** Large residuals *)

Lemma Qgt_bool_iff (x y : Q) : Qgt_bool x y = true <-> (y < x)%Q.
Proof.
  unfold Qgt_bool. rewrite negb_true_iff.
  destruct (Qle_bool x y) eqn:E.
  - apply Qle_bool_iff in E. split; [discriminate|].
    intros H. exfalso. apply (Qlt_irrefl y).
    apply Qlt_le_trans with (y := x); assumption.
  - split; [intros _ | reflexivity].
    apply Qnot_le_lt. intros H. apply Qle_bool_iff in H. congruence.
Qed.

(** Writing [d[c] = f(c)] into a dictionary whose values are [f] of their
    keys. *)
Lemma In_setitem {V : Type} (f : ConstraintData -> V)
    (d : list (ConstraintData * V)) (c k : ConstraintData) (x : V) :
  (forall k' x', In (k', x') d -> x' = f k') ->
  In (k, x) (setitem d c (f c)) <-> (k = c /\ x = f c) \/ In (k, x) d.
Proof.
  induction d as [|[k' y] d IH]; intros Hd; simpl.
  - split; [intros [[= -> ->]|[]]; auto | intros [[-> ->]|[]]; auto].
  - destruct (same c k') eqn:S.
    + apply ConstraintData_same_spec in S. subst k'.
      assert (Ey : y = f c) by (apply Hd; left; reflexivity). subst y.
      simpl. split.
      * intros [[= -> ->]|H]; auto.
      * intros [[-> ->]|[[= -> ->]|H]]; auto.
    + simpl. rewrite IH by (intros; apply Hd; right; assumption). tauto.
Qed.

(** The loop of [large_residuals_set] ends normally when every evaluation
    failure is one of the caught exceptions. *)
Lemma large_residuals_loop (tol : Q) (return_residual_values : bool)
    (cs : list ConstraintData) :
  (forall c e, In c cs -> residual c = Raise e -> caught e = true) ->
  forall st,
    (forall k x, In (k, x) (snd st) -> x = marker k) ->
    exists st',
      for_each (large_residuals_step tol return_residual_values) cs st = Ok st'
      /\ (forall c, In c (fst st') <-> In c (fst st) \/ (In c cs /\ flagged tol c))
      /\ (forall k x,
             In (k, x) (snd st')
             <-> In (k, x) (snd st)
                 \/ (return_residual_values = true /\ In k cs /\ flagged tol k
                     /\ x = marker k)).
Proof.
  induction cs as [|c cs IH]; intros Hcaught st Hst; simpl.
  - exists st. repeat split; auto; intros [H|H]; auto; destruct H; tauto.
  - assert (Hcs : forall c' e, In c' cs -> residual c' = Raise e -> caught e = true)
      by (intros c' e Hc'; apply Hcaught; right; assumption).
    assert (Hreport :
              flagged tol c -> 
              exists st',
                for_each (large_residuals_step tol return_residual_values) cs
                  (add (fst st) c,
                   if return_residual_values then setitem (snd st) c (marker c)
                   else snd st) = Ok st'
                /\ (forall c0, In c0 (fst st')
                               <-> In c0 (fst st)
                                   \/ (In c0 (c :: cs) /\ flagged tol c0))
                /\ (forall k x,
                       In (k, x) (snd st')
                       <-> In (k, x) (snd st)
                           \/ (return_residual_values = true /\ In k (c :: cs)
                               /\ flagged tol k /\ x = marker k))).
    { intros Hc.
      destruct (IH Hcs (add (fst st) c,
                        if return_residual_values
                        then setitem (snd st) c (marker c) else snd st))
        as (st' & E & Hset & Hdict).
      - simpl. intros k x. destruct return_residual_values; [|apply Hst].
        rewrite (In_setitem marker _ _ _ _ Hst). intros [[-> ->]|H]; auto.
      - exists st'. split; [exact E|]. simpl in Hset, Hdict. split.
        + intros c0. rewrite Hset, (In_add ConstraintData_same_spec). simpl.
          intuition (subst; auto).
        + intros k x. rewrite Hdict. simpl.
          destruct return_residual_values.
          * rewrite (In_setitem marker _ _ _ _ Hst).
            intuition (subst; auto).
          * intuition discriminate. }
    unfold large_residuals_step at 1, flagged at 1 in Hreport.
    unfold large_residuals_step at 1. unfold marker at 1 in Hreport.
    destruct (residual c) as [r|e] eqn:R; simpl.
    + destruct (Qgt_bool r tol) eqn:G.
      * apply Qgt_bool_iff in G. apply Hreport, G.
      * destruct (IH Hcs st Hst) as (st' & E & Hset & Hdict).
        exists st'. split; [exact E|].
        assert (N : ~ flagged tol c).
        { unfold flagged. rewrite R. intros H. apply Qgt_bool_iff in H.
          congruence. }
        split.
        -- intros c0. rewrite Hset. intuition (subst; auto; contradiction).
        -- intros k x. rewrite Hdict. intuition (subst; auto; contradiction).
    + rewrite (Hcaught c e (or_introl eq_refl) R). simpl. apply Hreport, I.
Qed.

(** X1: when every evaluation failure in the activated walk raises
    [AttributeError], [TypeError] or [ValueError], [large_residuals_set] ends
    normally in both output modes; the set holds exactly the constraints whose
    residual exceeds [tol] or cannot be evaluated, and the dictionary maps each
    of them to its residual, [None] when it cannot be evaluated. *)
Lemma large_residuals_set_catches (block : Block) (tol : Q) :
  (forall c e,
      In c (_iter_indexed_block_data_objects block Constraint (Some true) true) ->
      residual c = Raise e -> caught e = true) ->
  exists s d,
    large_residuals_set block tol false = Ok (inl s)
    /\ large_residuals_set block tol true = Ok (inr d)
    /\ (forall c,
           In c s
           <-> In c (_iter_indexed_block_data_objects block Constraint
                       (Some true) true)
               /\ flagged tol c)
    /\ (forall c x, In (c, x) d <-> In c s /\ x = marker c).
Proof.
  intros Hcaught. unfold large_residuals_set.
  destruct (large_residuals_loop tol false _ Hcaught ([], []))
    as (st0 & E0 & Hset0 & _); [intros k x []|].
  destruct (large_residuals_loop tol true _ Hcaught ([], []))
    as (st1 & E1 & _ & Hdict1); [intros k x []|].
  exists (fst st0), (snd st1). rewrite E0, E1. simpl in *.
  split; [reflexivity|]. split; [reflexivity|].
  assert (Hs : forall c,
             In c (fst st0)
             <-> In c (_iter_indexed_block_data_objects block Constraint
                         (Some true) true)
                 /\ flagged tol c).
  { intros c. rewrite Hset0. tauto. }
  split; [exact Hs|].
  intros c x. rewrite Hdict1, Hs. intuition auto.
Qed.

(** On [model_unset] the only failure is a [ValueError]. *)
Lemma large_residuals_set_catches_witness :
  exists s d,
    large_residuals_set model_unset default_residual_tol false = Ok (inl s)
    /\ large_residuals_set model_unset default_residual_tol true = Ok (inr d)
    /\ (forall c,
           In c s
           <-> In c (_iter_indexed_block_data_objects model_unset Constraint
                       (Some true) true)
               /\ flagged default_residual_tol c)
    /\ (forall c x, In (c, x) d <-> In c s /\ x = marker c).
Proof.
  apply (@large_residuals_set_catches model_unset default_residual_tol).
  intros c e [<-|[]] E. injection E as <-. reflexivity.
Defined.

(** An exception outside the [except] clause passes through
    [large_residuals_set]. *)
Lemma large_residuals_set_uncaught :
  large_residuals_set model_div default_residual_tol false
  = Raise ZeroDivisionError.
Proof. reflexivity. Qed.

(** C4 fails on the code: [number_large_residuals] has no [try]; on
    [model_unset], whose only constraint reads a variable without a value, it
    raises the [ValueError] of the evaluation, where [large_residuals_set]
    catches it and reports the constraint, with [None] as its residual. *)
Theorem number_large_residuals_raises :
  number_large_residuals model_unset default_residual_tol = Raise ValueError
  /\ large_residuals_set model_unset default_residual_tol false
     = Ok (inl [c_unset])
  /\ large_residuals_set model_unset default_residual_tol true
     = Ok (inr [(c_unset, None)]).
Proof. repeat split; reflexivity. Qed.

(* ====================================================================== *)
(** * Further properties *)

(** ** Counting by a flag *)

Lemma fold_add_if_fold_filter {A : Type} {I : Identity A} (p : A -> bool)
    (l s : list A) :
  fold_left (fun s x => if p x then add s x else s) l s
  = fold_left add (filter p l) s.
Proof.
  revert s; induction l as [|x l IH]; intros s; simpl; [reflexivity|].
  destruct (p x); simpl; apply IH.
Qed.

Lemma list_sum_filter_split {A : Type} (f : A -> nat) (p : A -> bool)
    (l : list A) :
  list_sum (map f (filter p l))
  + list_sum (map f (filter (fun x => negb (p x)) l))
  = list_sum (map f l).
Proof.
  induction l as [|x l IH]; simpl; [reflexivity|].
  destruct (p x); simpl; lia.
Qed.

Lemma activated_greybox_block_set_filter (block : Block) :
  activated_greybox_block_set block
  = filter gb_active (greybox_block_set block).
Proof.
  unfold activated_greybox_block_set.
  rewrite (fold_add_if_filter GreyBox_same_spec); [reflexivity|].
  apply NoDup_greybox_block_set.
Qed.

Lemma deactivated_greybox_block_set_filter (block : Block) :
  deactivated_greybox_block_set block
  = filter (fun g => negb (gb_active g)) (greybox_block_set block).
Proof.
  unfold deactivated_greybox_block_set, difference.
  apply filter_ext_in. intros g Hg. f_equal.
  destruct (gb_active g) eqn:E.
  - apply (contains_In GreyBox_same_spec).
    apply In_activated_greybox_block_set. auto.
  - apply (contains_false GreyBox_same_spec).
    rewrite In_activated_greybox_block_set. intros [_ F]. congruence.
Qed.

(** X3: the grey-box block counts add up: every grey box of
    [greybox_block_set] is counted once, as activated or as deactivated, and
    the activated and deactivated grey-box equality counts together are the
    sum of [len(outputs) + n_equality_constraints()] over all of them. *)
Theorem greybox_block_counts (block : Block) :
  number_greybox_blocks block
  = number_activated_greybox_blocks block
    + number_deactivated_greybox_block block
  /\ number_activated_greybox_equalities block
     + number_deactivated_greybox_equalities block
     = list_sum (map greybox_contribution (greybox_block_set block)).
Proof.
  unfold number_greybox_blocks, number_activated_greybox_blocks,
    number_deactivated_greybox_block, number_activated_greybox_equalities,
    number_deactivated_greybox_equalities.
  rewrite !greybox_equalities_fold, activated_greybox_block_set_filter,
    deactivated_greybox_block_set_filter. split.
  - symmetry. apply filter_length.
  - simpl. apply list_sum_filter_split.
Qed.

(** X4: the objective counts add up exactly.  The constraint counts add up
    only with the grey-box terms moved across: the total adds the activated
    grey-box equalities, the deactivated count adds the deactivated ones, and
    the activated count adds none. *)
Theorem constraint_and_objective_counts (block : Block) :
  number_total_objectives block
  = number_activated_objectives block + number_deactivated_objectives block
  /\ number_total_constraints block + number_deactivated_greybox_equalities block
     = number_activated_constraints block + number_deactivated_constraints block
       + number_activated_greybox_equalities block.
Proof.
  unfold number_total_objectives, number_activated_objectives,
    number_deactivated_objectives, number_total_constraints,
    number_activated_constraints, number_deactivated_constraints,
    total_objectives_generator, activated_objectives_generator,
    deactivated_objectives_generator, activated_constraints_generator,
    deactivated_constraints_generator, count.
  pose proof (filter_length obj_active
                (activated_block_component_generator block Objective)).
  pose proof (filter_length con_active
                (activated_block_component_generator block Constraint)).
  lia.
Qed.

Lemma three_way_count (l : list ConstraintData) :
  length (filter (fun c => is_not_None (con_upper c) && is_not_None (con_lower c)
                           && bounds_equal (fun x => x) (con_upper c) (con_lower c))
                 l)
  + length (filter (fun c => is_None (con_upper c) || is_None (con_lower c)) l)
  + length (filter is_range_test l)
  = length l.
Proof.
  induction l as [|c l IH]; simpl; [reflexivity|].
  unfold is_range_test at 1.
  destruct (con_upper c) as [u|], (con_lower c) as [l'|]; simpl;
    try destruct (Qeq_bool u l'); simpl; lia.
Qed.

(** X5: equalities and inequalities do not exhaust the constraints: a
    two-sided constraint with different bounds is in neither class, so the
    total count is the equality count plus the inequality count plus the number
    of such constraints (the grey-box equalities are in both the total and the
    equality count). *)
Theorem equalities_inequalities_ranges (block : Block) :
  number_total_constraints block
  = number_total_equalities block + number_total_inequalities block
    + count (filter is_range_test
               (activated_block_component_generator block Constraint))
  /\ number_total_equalities block + number_total_inequalities block
     <= number_total_constraints block.
Proof.
  unfold number_total_constraints, number_total_equalities,
    number_total_inequalities, total_equalities_generator,
    total_inequalities_generator, count.
  pose proof (three_way_count
                (activated_block_component_generator block Constraint)).
  lia.
Qed.

(** ** Grey-box and equality variables by flag *)

Lemma NoDup_greybox_variables (block : Block) : NoDup (greybox_variables block).
Proof. apply NoDup_greybox_variables_fold; constructor. Qed.

Lemma NoDup_variables_in_activated_equalities_set (block : Block) :
  NoDup (variables_in_activated_equalities_set block).
Proof.
  unfold variables_in_activated_equalities_set.
  apply (NoDup_fold_add VarData_same_spec).
  generalize (activated_equalities_generator block).
  assert (G : forall cs s, NoDup s ->
              NoDup (fold_left
                       (fun var_set c =>
                          fold_left add (identify_variables (con_body c)) var_set)
                       cs s)).
  { induction cs as [|c cs IH]; intros s Hs; simpl; [assumption|].
    apply IH, (NoDup_fold_add VarData_same_spec), Hs. }
  intros cs. apply G. constructor.
Qed.

(** X6: the report's count of fixed grey-box variables,
    [number_of_greybox_variables - number_of_unfixed_greybox_variables], is
    never negative and is the number of fixed variables among the inputs and
    outputs of the activated grey boxes. *)
Theorem greybox_variable_counts (block : Block) :
  number_of_unfixed_greybox_variables block <= number_of_greybox_variables block
  /\ number_of_greybox_variables block - number_of_unfixed_greybox_variables block
     = length (filter var_fixed (greybox_variables block))
  /\ (forall v, In v (unfixed_greybox_variables block)
                <-> In v (greybox_variables block) /\ var_fixed v = false).
Proof.
  unfold number_of_unfixed_greybox_variables, number_of_greybox_variables,
    unfixed_greybox_variables.
  rewrite (fold_add_if_filter VarData_same_spec)
    by apply NoDup_greybox_variables. simpl.
  pose proof (filter_length var_fixed (greybox_variables block)).
  split; [lia|]. split; [lia|].
  intros v. now rewrite filter_In, negb_true_iff.
Qed.

(** X7: the variables of the activated equalities split into fixed and
    unfixed ones, so the degrees of freedom are the number of variables in
    activated equalities, minus the fixed ones among them, minus the number of
    activated equalities. *)
Theorem degrees_of_freedom_by_fixing (block : Block) :
  number_variables_in_activated_equalities block
  = number_fixed_variables_in_activated_equalities block
    + number_unfixed_variables_in_activated_equalities block
  /\ degrees_of_freedom block
     = (Z.of_nat (number_variables_in_activated_equalities block)
        - Z.of_nat (number_fixed_variables_in_activated_equalities block)
        - Z.of_nat (number_activated_equalities block))%Z.
Proof.
  assert (E : number_variables_in_activated_equalities block
              = number_fixed_variables_in_activated_equalities block
                + number_unfixed_variables_in_activated_equalities block).
  { unfold number_variables_in_activated_equalities,
      number_fixed_variables_in_activated_equalities,
      number_unfixed_variables_in_activated_equalities,
      fixed_variables_in_activated_equalities_set,
      unfixed_variables_in_activated_equalities_set.
    rewrite !(fold_add_if_filter VarData_same_spec)
      by apply NoDup_variables_in_activated_equalities_set.
    simpl. symmetry. apply filter_length. }
  split; [exact E|]. unfold degrees_of_freedom. lia.
Qed.

(** ** Unused variables *)

Lemma In_unused_variables_set (block : Block) (v : VarData) :
  In v (unused_variables_set block)
  <-> In v (_iter_indexed_block_data_objects block Var (Some true) true)
      /\ ~ In v (variables_in_activated_constraints_set block).
Proof.
  unfold unused_variables_set.
  rewrite (In_difference VarData_same_spec), In_variables_set,
    In_variables_in_activated_constraints_set. tauto.
Qed.

Lemma In_variables_not_in_activated_constraints_set (block : Block)
    (v : VarData) :
  In v (variables_not_in_activated_constraints_set block)
  <-> In v (_iter_indexed_block_data_objects block Var (Some true) true)
      /\ ~ In v (variables_in_activated_constraints_set block).
Proof.
  unfold variables_not_in_activated_constraints_set.
  rewrite (In_fold_add_if VarData_same_spec), negb_true_iff,
    (contains_false VarData_same_spec); simpl. tauto.
Qed.

(** X8: [unused_variables_set], a set difference, and
    [variables_not_in_activated_constraints_set], a loop over the variable
    walk, hold the same variables and have the same size: the variables of the
    activated walk that occur in no activated constraint body and belong to no
    activated grey box.  The fixed ones among them are not more numerous. *)
Theorem unused_variables_agree (block : Block) :
  (forall v,
      In v (unused_variables_set block)
      <-> In v (variables_not_in_activated_constraints_set block))
  /\ number_unused_variables block
     = number_variables_not_in_activated_constraints block
  /\ (forall v,
         In v (unused_variables_set block)
         <-> In v (_iter_indexed_block_data_objects block Var (Some true) true)
             /\ ~ (exists c,
                      In c (_iter_indexed_block_data_objects block Constraint
                              (Some true) true)
                      /\ In v (leaves (con_body c)))
             /\ ~ In v (greybox_variables block))
  /\ number_fixed_unused_variables block <= number_unused_variables block.
Proof.
  assert (Hsame : forall v,
             In v (unused_variables_set block)
             <-> In v (variables_not_in_activated_constraints_set block)).
  { intros v. now rewrite In_unused_variables_set,
      In_variables_not_in_activated_constraints_set. }
  assert (Hu : NoDup (unused_variables_set block)).
  { unfold unused_variables_set, difference.
    apply NoDup_filter, NoDup_variables_set. }
  split; [exact Hsame|]. split.
  - unfold number_unused_variables, number_variables_not_in_activated_constraints.
    apply Permutation_length, NoDup_Permutation; [exact Hu | | exact Hsame].
    apply (NoDup_fold_add_if VarData_same_spec); constructor.
  - split.
    + intros v. rewrite In_unused_variables_set,
        In_variables_in_activated_constraints_set. tauto.
    + unfold number_fixed_unused_variables, number_unused_variables,
        fixed_unused_variables_set.
      rewrite (fold_add_if_filter VarData_same_spec) by exact Hu.
      simpl. apply filter_length_le.
Qed.

(** ** Variables only in inequalities *)

Lemma In_variables_in_activated_inequalities_set (block : Block) (v : VarData) :
  In v (variables_in_activated_inequalities_set block)
  <-> exists c, In c (activated_inequalities_generator block)
                /\ In v (leaves (con_body c)).
Proof.
  unfold variables_in_activated_inequalities_set.
  rewrite In_fold_bodies; simpl. tauto.
Qed.

(** X9: a variable is reported as occurring only in inequalities iff it
    occurs in the body of an activated inequality, in the body of no activated
    equality, and is no input or output of an activated grey box;
    [fixed_variables_only_in_inequalities] holds the fixed ones among these. *)
Theorem only_in_inequalities_rule (block : Block) (v : VarData) :
  (In v (variables_only_in_inequalities block)
   <-> (exists c, In c (activated_inequalities_generator block)
                  /\ In v (leaves (con_body c)))
       /\ ~ (exists c, In c (activated_equalities_generator block)
                       /\ In v (leaves (con_body c)))
       /\ ~ In v (greybox_variables block))
  /\ (In v (fixed_variables_only_in_inequalities block)
      <-> In v (variables_only_in_inequalities block) /\ var_fixed v = true)
  /\ number_fixed_variables_only_in_inequalities block
     <= number_variables_only_in_inequalities block.
Proof.
  split.
  - unfold variables_only_in_inequalities.
    rewrite (In_difference VarData_same_spec),
      In_variables_in_activated_inequalities_set,
      In_variables_in_activated_equalities_set. tauto.
  - split.
    + unfold fixed_variables_only_in_inequalities.
      rewrite (In_fold_add_if VarData_same_spec); simpl. tauto.
    + unfold number_fixed_variables_only_in_inequalities,
        number_variables_only_in_inequalities,
        fixed_variables_only_in_inequalities.
      rewrite fold_add_if_fold_filter.
      apply Nat.le_trans with (m := length (filter var_fixed
                                       (variables_only_in_inequalities block))).
      * apply (length_ComponentSet_le VarData_same_spec).
      * apply filter_length_le.
Qed.

(** ** The walk, block by block *)

Lemma flat_map_flat_map {A B C : Type} (f : B -> list C) (g : A -> list B)
    (l : list A) :
  flat_map f (flat_map g l) = flat_map (fun x => flat_map f (g x)) l.
Proof.
  induction l as [|x l IH]; simpl; [reflexivity|].
  now rewrite flat_map_app, IH.
Qed.

Lemma filter_matches_None {A : Type} (flag : A -> bool) (l : list A) :
  filter (fun x => matches None (flag x)) l = l.
Proof. apply filter_all. Qed.

(** A walk with descent is the walk of the block itself followed by the
    walks of its sub-blocks, or nothing when the block's flag is refused. *)
Lemma component_data_objects_rec {A : Type} (ct : CType A)
    (active : option bool) (i : nat) (a : bool) (v : list VarData)
    (c : list ConstraintData) (o : list ObjectiveData)
    (g : list ExternalGreyBoxBlockData) (subs : list BlockData) :
  component_data_objects (mkBlockData i a v c o g subs) ct active true
  = if matches active a
    then filter (fun x => matches active (component_active ct x))
                (local_components ct (mkBlockData i a v c o g subs))
         ++ flat_map (fun s => component_data_objects s ct active true) subs
    else [].
Proof.
  unfold component_data_objects. simpl.
  destruct (matches active a); simpl; [|reflexivity].
  f_equal. apply flat_map_flat_map.
Qed.

Lemma sub_blocks_of_inactive (bd : BlockData) :
  blk_active bd = false ->
  component_data_objects bd BlockT (Some true) true = [].
Proof.
  destruct bd as [i a v c o g subs]; simpl. intros ->.
  now rewrite component_data_objects_rec.
Qed.

Lemma In_activated_sub_blocks (bd b : BlockData) :
  In b (component_data_objects bd BlockT (Some true) true)
  <-> blk_active bd = true
      /\ exists s, In s (blk_blocks bd) /\ blk_active s = true
                   /\ (b = s \/ In b (component_data_objects s BlockT (Some true) true)).
Proof.
  destruct bd as [i a v c o g subs]. rewrite component_data_objects_rec.
  rewrite matches_true. simpl. destruct a.
  2:{ split; [intros [] | intros [E _]; discriminate]. }
  rewrite in_app_iff, filter_In, in_flat_map. split.
  - intros [[Hb Hact]|(s & Hs & Hb)]; (split; [reflexivity|]).
    + rewrite matches_true in Hact. exists b. auto.
    + exists s. destruct (blk_active s) eqn:E.
      * auto.
      * rewrite (sub_blocks_of_inactive s E) in Hb. destruct Hb.
  - intros (_ & s & Hs & Hact & [->|Hb]).
    + left. rewrite matches_true. auto.
    + right. exists s. auto.
Qed.

(** X10: [activated_block_component_generator] yields what the root block
    owns, whatever the root's flag, and, when the root is active, what it
    yields for each active sub-block taken as a root; it yields nothing from
    beneath an inactive block. *)
Theorem generator_by_levels {A : Type} (ct : CType A) (bd : BlockData) (x : A) :
  In x (activated_block_component_generator (ScalarBlock bd) ct)
  <-> In x (local_components ct bd)
      \/ (blk_active bd = true
          /\ exists s, In s (blk_blocks bd) /\ blk_active s = true
                       /\ In x (activated_block_component_generator
                                  (ScalarBlock s) ct)).
Proof.
  rewrite In_generator_scalar. split.
  - intros [Hx|(b & Hb & Hx)]; [left; exact Hx | right].
    apply In_activated_sub_blocks in Hb.
    destruct Hb as (Ha & s & Hs & Hact & [->|Hb]); (split; [exact Ha|]);
      exists s; repeat split; auto; apply In_generator_scalar.
    + left; exact Hx.
    + right. exists b. auto.
  - intros [Hx|(Ha & s & Hs & Hact & Hx)]; [left; exact Hx | right].
    apply In_generator_scalar in Hx. destruct Hx as [Hx|(b & Hb & Hx)].
    + exists s. split; [|exact Hx]. apply In_activated_sub_blocks. eauto 6.
    + exists b. split; [|exact Hx]. apply In_activated_sub_blocks. eauto 6.
Qed.

(** ** Counting blocks *)

Lemma sub_blocks_count_le (bd : BlockData) :
  length (component_data_objects bd BlockT (Some true) true)
  <= length (component_data_objects bd BlockT None true).
Proof.
  induction bd as [i a v c o g subs IH] using BlockData_tree_ind.
  rewrite !component_data_objects_rec, matches_None, matches_true.
  destruct a; simpl; [|lia].
  rewrite filter_matches_None, !length_app.
  assert (length (flat_map (fun s => component_data_objects s BlockT (Some true) true) subs)
          <= length (flat_map (fun s => component_data_objects s BlockT None true) subs)).
  { induction IH as [|s subs Hs _ IHsubs]; simpl; [lia|].
    rewrite !length_app. lia. }
  pose proof (filter_length_le (fun x => matches (Some true) (blk_active x)) subs).
  lia.
Qed.

Lemma all_active_flag (bd : BlockData) : all_active bd = true -> blk_active bd = true.
Proof.
  destruct bd as [i a v c o g subs]; simpl.
  rewrite andb_true_iff. tauto.
Qed.

Lemma sub_blocks_all_active (bd : BlockData) :
  all_active bd = true ->
  component_data_objects bd BlockT (Some true) true
  = component_data_objects bd BlockT None true.
Proof.
  induction bd as [i a v c o g subs IH] using BlockData_tree_ind.
  simpl. rewrite andb_true_iff, forallb_forall. intros [-> Hsubs].
  rewrite !component_data_objects_rec, matches_None, matches_true. simpl.
  rewrite filter_matches_None. f_equal.
  - transitivity (filter (fun _ : BlockData => true) subs); [|apply filter_all].
    apply filter_ext_in. intros s Hs.
    now rewrite matches_true, (all_active_flag s (Hsubs s Hs)).
  - rewrite Forall_forall in IH.
    clear - IH Hsubs. induction subs as [|s subs IHsubs]; simpl; [reflexivity|].
    rewrite IH, IHsubs; auto.
    + intros x Hx. apply IH. now right.
    + intros x Hx. apply Hsubs. now right.
    + now left.
    + apply Hsubs. now left.
Qed.

Lemma iter_sub_blocks_count_le (block : Block) :
  length (_iter_indexed_block_data_objects block BlockT (Some true) true)
  <= length (_iter_indexed_block_data_objects block BlockT None true).
Proof.
  destruct block as [bd|i a values]; simpl; [apply sub_blocks_count_le|].
  induction values as [|bd values IH]; simpl; [lia|].
  rewrite !length_app. pose proof (sub_blocks_count_le bd). lia.
Qed.

(** X11: [number_deactivated_blocks], a difference of two counts, is never
    negative; it is the total count when the root's flag is off, and 0 when
    every block of the model is active. *)
Theorem number_deactivated_blocks_range (block : Block) :
  (0 <= number_deactivated_blocks block)%Z
  /\ (number_deactivated_blocks block <= Z.of_nat (number_total_blocks block))%Z
  /\ (block_active block = false ->
      number_deactivated_blocks block = Z.of_nat (number_total_blocks block))
  /\ (every_block_active block = true -> number_deactivated_blocks block = 0%Z).
Proof.
  unfold number_deactivated_blocks, number_total_blocks, number_activated_blocks,
    count.
  pose proof (iter_sub_blocks_count_le block) as Hle.
  split; [destruct (block_active block); lia|].
  split; [lia|]. split.
  - intros ->. simpl. lia.
  - intros Hall.
    assert (E : _iter_indexed_block_data_objects block BlockT (Some true) true
                = _iter_indexed_block_data_objects block BlockT None true
                /\ block_active block = true).
    { destruct block as [bd|i a values]; simpl in *.
      - split; [apply sub_blocks_all_active, Hall | apply all_active_flag, Hall].
      - apply andb_true_iff in Hall. destruct Hall as [-> Hall].
        split; [|reflexivity]. rewrite forallb_forall in Hall.
        clear Hle. induction values as [|bd values IH]; simpl; [reflexivity|].
        rewrite IH by (intros x Hx; apply Hall; now right).
        rewrite (sub_blocks_all_active bd) by (apply Hall; now left).
        reflexivity. }
    destruct E as [-> ->]. lia.
Qed.

(** X12: the elements of an indexed root are walked but not counted as
    blocks themselves: the indexed root counts as one block, to which each
    element adds only the blocks beneath it. *)
Theorem number_total_blocks_indexed (i : nat) (a : bool)
    (values : list BlockData) :
  number_total_blocks (IndexedBlock i a values) + length values
  = list_sum (map (fun bd => number_total_blocks (ScalarBlock bd)) values) + 1.
Proof.
  unfold number_total_blocks, count; simpl.
  induction values as [|bd values IH]; simpl; [reflexivity|].
  rewrite length_app. lia.
Qed.

(** ** Residuals *)

Lemma residual_of_value (c : ConstraintData) (b : Q) :
  evaluate (con_body c) = Ok b ->
  residual c = Ok (Qmax (Qmax 0 (lower_gap c b)) (upper_gap c b)).
Proof.
  intros E. unfold residual, lower_gap, upper_gap, value. rewrite E.
  rewrite <- !py_max_Qmax. unfold py_max.
  destruct (con_lower c), (con_upper c); reflexivity.
Qed.

(** X13: the residual of a constraint whose body evaluates to [b] is
    [max(0, lower - b, b - upper)], an absent bound contributing 0, so it is
    never negative; when the body cannot be evaluated the exception is that of
    the body, except for a constraint without bounds, whose body is not
    evaluated and whose residual is 0. *)
Theorem residual_rule (c : ConstraintData) :
  (forall b, evaluate (con_body c) = Ok b ->
             residual c = Ok (Qmax (Qmax 0 (lower_gap c b)) (upper_gap c b)))
  /\ (forall e, evaluate (con_body c) = Raise e ->
                residual c
                = if is_None (con_lower c) && is_None (con_upper c)
                  then Ok 0%Q else Raise e)
  /\ (forall r, residual c = Ok r -> (0 <= r)%Q).
Proof.
  split; [apply residual_of_value|]. split.
  - intros e E. unfold residual. rewrite E.
    destruct (con_lower c), (con_upper c); reflexivity.
  - intros r. destruct (evaluate (con_body c)) as [b|e] eqn:E.
    + rewrite (@residual_of_value c b E). intros [= <-].
      apply Qle_trans with (y := Qmax 0 (lower_gap c b)); apply Q.le_max_l.
    + unfold residual. rewrite E.
      destruct (con_lower c), (con_upper c); simpl; try discriminate.
      intros [= <-]. apply Qle_refl.
Qed.

Lemma walk_constraints_active (block : Block) (c : ConstraintData) :
  In c (_iter_indexed_block_data_objects block Constraint (Some true) true) ->
  con_active c = true.
Proof.
  intros H. now apply (activated_walk_in_generator block Constraint) in H.
Qed.

(** One iteration of [number_large_residuals] that does not raise. *)
Lemma number_large_residuals_step_ok (tol : Q) (lr n : nat) (c : ConstraintData) :
  con_active c = true ->
  number_large_residuals_step tol lr c = Ok n ->
  exists b l,
    evaluate (con_body c) = Ok b /\ con_lower c = Some l
    /\ ((Qgt_bool (l - b) tol = true /\ n = lr + 1)
        \/ (Qgt_bool (l - b) tol = false
            /\ exists u, con_upper c = Some u
                         /\ n = lr + (if Qgt_bool (b - u) tol then 1 else 0))).
Proof.
  intros Ha. unfold number_large_residuals_step, py_sub_from, py_sub, value.
  rewrite Ha.
  destruct (evaluate (con_body c)) as [b|e]; simpl; [|discriminate].
  destruct (con_lower c) as [l|]; simpl; [|discriminate].
  destruct (Qgt_bool (l - b) tol) eqn:F.
  - intros [= <-]. exists b, l. auto.
  - destruct (con_upper c) as [u|]; simpl; [|discriminate].
    intros E. exists b, l. repeat split. right. split; [exact F|].
    exists u. split; [reflexivity|].
    destruct (Qgt_bool (b - u) tol); injection E as <-; lia.
Qed.

Lemma number_large_residuals_loop_ok (tol : Q) (cs : list ConstraintData) :
  (forall c, In c cs -> con_active c = true) ->
  forall lr n,
    for_each (number_large_residuals_step tol) cs lr = Ok n ->
    lr <= n <= lr + length cs
    /\ forall c, In c cs ->
                 (exists b, evaluate (con_body c) = Ok b)
                 /\ con_lower c <> None.
Proof.
  induction cs as [|c cs IH]; intros Hact lr n; simpl.
  - intros [= <-]. split; [lia | intros c []].
  - destruct (number_large_residuals_step tol lr c) as [m|e] eqn:S; simpl;
      [|discriminate].
    intros E.
    destruct (@number_large_residuals_step_ok tol lr m c
                (Hact c (or_introl eq_refl)) S)
      as (b & l & Eb & El & Hm).
    destruct (IH (fun x Hx => Hact x (or_intror Hx)) m n E) as [Hn Hcs].
    split.
    + destruct Hm as [[_ ->]|(_ & u & _ & ->)];
        [|destruct (Qgt_bool (b - u) tol)]; lia.
    + intros x [<-|Hx]; [|apply Hcs, Hx].
      split; [exists b; exact Eb | congruence].
Qed.

(** X14: [number_large_residuals] returns a count only when every constraint
    of the activated walk has a lower bound and a body that evaluates; the
    count is then at most the number of constraints walked.  On a constraint
    bounded only from above, or whose body cannot be evaluated, it raises. *)
Theorem number_large_residuals_needs_lower_bounds (block : Block) (tol : Q)
    (n : nat) :
  number_large_residuals block tol = Ok n ->
  n <= length (_iter_indexed_block_data_objects block Constraint (Some true) true)
  /\ forall c,
       In c (_iter_indexed_block_data_objects block Constraint (Some true) true) ->
       (exists b, evaluate (con_body c) = Ok b) /\ con_lower c <> None.
Proof.
  unfold number_large_residuals. intros E.
  destruct (@number_large_residuals_loop_ok tol _
              (@walk_constraints_active block) 0 n E) as [Hn Hcs].
  split; [lia | exact Hcs].
Qed.

(** On [model_under] the only constraint, [x + y == 1], holds exactly. *)
Lemma number_large_residuals_needs_lower_bounds_witness :
  number_large_residuals model_under default_residual_tol = Ok 0
  /\ forall c,
       In c (_iter_indexed_block_data_objects model_under Constraint
               (Some true) true) ->
       (exists b, evaluate (con_body c) = Ok b) /\ con_lower c <> None.
Proof.
  split; [reflexivity|].
  apply (@number_large_residuals_needs_lower_bounds model_under
           default_residual_tol 0 eq_refl).
Defined.

Lemma flagged_test_of_count (tol : Q) (c : ConstraintData) (b l : Q) :
  (0 <= tol)%Q ->
  evaluate (con_body c) = Ok b -> con_lower c = Some l ->
  (Qgt_bool (l - b) tol = true -> flagged_test tol c = true)
  /\ (Qgt_bool (l - b) tol = false ->
      forall u, con_upper c = Some u ->
                flagged_test tol c = Qgt_bool (b - u) tol).
Proof.
  intros Ht Eb El. unfold flagged_test.
  rewrite (@residual_of_value c b Eb). unfold lower_gap, upper_gap. rewrite El.
  split.
  - intros F. apply Qgt_bool_iff in F. apply Qgt_bool_iff.
    apply Q.max_lt_iff. left. apply Q.max_lt_iff. now right.
  - intros F u Eu. rewrite Eu.
    assert (Hl : ~ (tol < l - b)%Q)
      by (intros H; apply Qgt_bool_iff in H; congruence).
    destruct (Qgt_bool (b - u) tol) eqn:G.
    + apply Qgt_bool_iff in G. apply Qgt_bool_iff.
      apply Q.max_lt_iff. now right.
    + destruct (Qgt_bool (Qmax (Qmax 0 (l - b)) (b - u)) tol) eqn:H;
        [|reflexivity].
      apply Qgt_bool_iff in H. apply Q.max_lt_iff in H.
      destruct H as [H|H].
      * apply Q.max_lt_iff in H. destruct H as [H|H].
        -- exfalso. apply (Qlt_irrefl tol).
           apply Qlt_le_trans with (y := 0%Q); assumption.
        -- contradiction.
      * apply Qgt_bool_iff in H. congruence.
Qed.

Lemma number_large_residuals_loop_count (tol : Q) (cs : list ConstraintData) :
  (0 <= tol)%Q ->
  (forall c, In c cs -> con_active c = true) ->
  forall lr n,
    for_each (number_large_residuals_step tol) cs lr = Ok n ->
    n = lr + length (filter (flagged_test tol) cs)
    /\ forall c, In c cs -> exists r, residual c = Ok r.
Proof.
  intros Ht. induction cs as [|c cs IH]; intros Hact lr n; simpl.
  - intros [= <-]. split; [lia | intros c []].
  - destruct (number_large_residuals_step tol lr c) as [m|e] eqn:S; simpl;
      [|discriminate].
    intros E.
    destruct (@number_large_residuals_step_ok tol lr m c
                (Hact c (or_introl eq_refl)) S)
      as (b & l & Eb & El & Hm).
    destruct (IH (fun x Hx => Hact x (or_intror Hx)) m n E) as [Hn Hcs].
    destruct (@flagged_test_of_count tol c b l Ht Eb El) as [Hfirst Hsecond].
    split.
    + destruct Hm as [[F ->]|(F & u & Eu & ->)].
      * rewrite (Hfirst F). simpl. lia.
      * rewrite (Hsecond F u Eu).
        destruct (Qgt_bool (b - u) tol); simpl; lia.
    + intros x [<-|Hx]; [|apply Hcs, Hx].
      rewrite (@residual_of_value c b Eb). eauto.
Qed.

Lemma large_residuals_loop_set (tol : Q) (cs : list ConstraintData) :
  (forall c, In c cs -> exists r, residual c = Ok r) ->
  forall st,
    for_each (large_residuals_step tol false) cs st
    = Ok (fold_left add (filter (flagged_test tol) cs) (fst st), snd st).
Proof.
  induction cs as [|c cs IH]; intros Hcs [s d]; simpl; [reflexivity|].
  destruct (Hcs c (or_introl eq_refl)) as [r Er].
  unfold large_residuals_step at 1, flagged_test at 1. rewrite Er. simpl.
  destruct (Qgt_bool r tol); simpl;
    rewrite IH by (intros x Hx; apply Hcs; now right); reflexivity.
Qed.

(** X15: for a tolerance that is not negative, whenever
    [number_large_residuals] returns a count, [large_residuals_set] returns
    normally too, its set has at most that many elements, and exactly that
    many when the activated walk yields no constraint twice. *)
Theorem large_residual_count_and_set (block : Block) (tol : Q) (n : nat) :
  (0 <= tol)%Q ->
  number_large_residuals block tol = Ok n ->
  exists s,
    large_residuals_set block tol false = Ok (inl s)
    /\ length s <= n
    /\ (NoDup (_iter_indexed_block_data_objects block Constraint
                 (Some true) true) ->
        length s = n).
Proof.
  intros Ht E. unfold number_large_residuals in E.
  destruct (@number_large_residuals_loop_count tol _ Ht
              (@walk_constraints_active block) 0 n E) as [Hn Hcs].
  unfold large_residuals_set. rewrite (@large_residuals_loop_set tol _ Hcs).
  simpl. eexists. split; [reflexivity|]. simpl in Hn. subst n.
  split.
  - apply (length_ComponentSet_le ConstraintData_same_spec).
  - intros Hnd. apply (length_ComponentSet_iff ConstraintData_same_spec).
    now apply NoDup_filter.
Qed.

(** On [model_under] both entry points report nothing. *)
Lemma large_residual_count_and_set_witness :
  (0 <= default_residual_tol)%Q
  /\ number_large_residuals model_under default_residual_tol = Ok 0
  /\ exists s,
       large_residuals_set model_under default_residual_tol false = Ok (inl s)
       /\ length s <= 0
       /\ (NoDup (_iter_indexed_block_data_objects model_under Constraint
                    (Some true) true) ->
           length s = 0).
Proof.
  assert (Ht : (0 <= default_residual_tol)%Q) by discriminate.
  split; [exact Ht|]. split; [reflexivity|].
  apply (@large_residual_count_and_set model_under default_residual_tol 0 Ht
           eq_refl).
Defined.

(** ** Variables without a value *)

Lemma evaluate_unset (e : Expr) (v : VarData) :
  In v (leaves e) -> var_value v = None -> exists ex, evaluate e = Raise ex.
Proof.
  intros Hv Hnone.
  induction e as [q|w|a IHa b IHb|a IHa b IHb|a IHa b IHb|a IHa b IHb];
    simpl in *.
  - destruct Hv.
  - destruct Hv as [->|[]]. rewrite Hnone. eauto.
  - apply in_app_iff in Hv. destruct (evaluate a) as [x|ex]; simpl; [|eauto].
    destruct Hv as [Hv|Hv]; [destruct (IHa Hv); discriminate|].
    destruct (IHb Hv) as [ex ->]. simpl. eauto.
  - apply in_app_iff in Hv. destruct (evaluate a) as [x|ex]; simpl; [|eauto].
    destruct Hv as [Hv|Hv]; [destruct (IHa Hv); discriminate|].
    destruct (IHb Hv) as [ex ->]. simpl. eauto.
  - apply in_app_iff in Hv. destruct (evaluate a) as [x|ex]; simpl; [|eauto].
    destruct Hv as [Hv|Hv]; [destruct (IHa Hv); discriminate|].
    destruct (IHb Hv) as [ex ->]. simpl. eauto.
  - apply in_app_iff in Hv. destruct (evaluate a) as [x|ex]; simpl; [|eauto].
    destruct Hv as [Hv|Hv]; [destruct (IHa Hv); discriminate|].
    destruct (IHb Hv) as [ex ->]. simpl. eauto.
Qed.

Lemma In_variables_with_none_value (block : Block) (v : VarData) :
  In v (variables_with_none_value_in_activated_equalities_set block)
  <-> In v (variables_in_activated_equalities_set block) /\ var_value v = None.
Proof.
  unfold variables_with_none_value_in_activated_equalities_set.
  rewrite (In_fold_add_if VarData_same_spec); simpl.
  destruct (var_value v); simpl; intuition discriminate.
Qed.

(** X16: a variable that [variables_with_none_value_in_activated_equalities_set]
    reports, and that is not a grey-box variable, occurs in an activated
    equality which [large_residuals_set] reports with residual [None],
    provided the evaluation failures of the model are caught ones. *)
Theorem unset_variable_flags_equality (block : Block) (tol : Q) (v : VarData) :
  (forall c e,
      In c (_iter_indexed_block_data_objects block Constraint (Some true) true) ->
      residual c = Raise e -> caught e = true) ->
  In v (variables_with_none_value_in_activated_equalities_set block) ->
  ~ In v (greybox_variables block) ->
  exists c d,
    In c (activated_equalities_generator block)
    /\ In v (leaves (con_body c))
    /\ large_residuals_set block tol true = Ok (inr d)
    /\ In (c, None) d.
Proof.
  intros Hcaught Hv Hgb.
  apply In_variables_with_none_value in Hv. destruct Hv as [Hv Hnone].
  apply In_variables_in_activated_equalities_set in Hv.
  destruct Hv as [(c & Hc & Hleaf)|Hv]; [|contradiction].
  destruct (evaluate_unset _ _ Hleaf Hnone) as [ex Eex].
  pose proof (proj1 (In_activated_equalities block c) Hc) as [Hwalk Heq].
  destruct Heq as (l & u & El & Eu & _).
  assert (R : residual c = Raise ex).
  { unfold residual. rewrite El, Eex. reflexivity. }
  destruct (large_residuals_loop tol true _ Hcaught ([], []))
    as (st & E & _ & Hdict); [intros k x []|].
  exists c, (snd st). repeat split; auto.
  - unfold large_residuals_set. rewrite E. reflexivity.
  - apply Hdict. right. repeat split; auto.
    + unfold flagged. now rewrite R.
    + unfold marker. now rewrite R.
Qed.

(** On [model_unset] the variable [w] has no value and makes [w == 0]
    unevaluable. *)
Lemma unset_variable_flags_equality_witness :
  In w_unset (variables_with_none_value_in_activated_equalities_set model_unset)
  /\ exists c d,
       In c (activated_equalities_generator model_unset)
       /\ In w_unset (leaves (con_body c))
       /\ large_residuals_set model_unset default_residual_tol true = Ok (inr d)
       /\ In (c, None) d.
Proof.
  assert (Hv : In w_unset
                 (variables_with_none_value_in_activated_equalities_set
                    model_unset)) by (left; reflexivity).
  split; [exact Hv|].
  apply (@unset_variable_flags_equality model_unset default_residual_tol w_unset).
  - intros c e [<-|[]] E. injection E as <-. reflexivity.
  - exact Hv.
  - intros [].
Defined.

(** ** An inactive root *)

Lemma walk_of_inactive {A : Type} (ct : CType A) (bd : BlockData) :
  blk_active bd = false ->
  component_data_objects bd ct (Some true) true = [].
Proof.
  destruct bd as [i a v c o g subs]; simpl. intros ->.
  now rewrite component_data_objects_rec.
Qed.

Lemma fold_add_NoDup {A : Type} {I : Identity A} :
  (forall x y : A, same x y = true <-> x = y) ->
  forall l : list A, NoDup l -> fold_left add l [] = l.
Proof.
  intros Hs l Hl. now rewrite (fold_add_NoDup_app Hs).
Qed.

(** X17: under a scalar root whose flag is off the activated walks yield
    nothing: there are no activated blocks, equalities or inequalities, no
    variable near a bound, no large residual, and the only variables are the
    grey-box ones.  What the root itself owns is still read: its grey boxes
    count, so the degrees of freedom are the unfixed grey-box variables minus
    the grey-box equalities, and its active constraints are still counted as
    activated. *)
Theorem inactive_root_statistics (bd : BlockData) (tol : Q)
    (return_residual_values : bool) (legacy_tol : option Q)
    (relative : option bool) (skip_lb skip_ub : bool) (abs_tol rel_tol : Q) :
  blk_active bd = false ->
  activated_blocks_set (ScalarBlock bd) = []
  /\ activated_equalities_generator (ScalarBlock bd) = []
  /\ activated_inequalities_generator (ScalarBlock bd) = []
  /\ variables_set (ScalarBlock bd) = greybox_variables (ScalarBlock bd)
  /\ variables_near_bounds_generator (ScalarBlock bd) legacy_tol relative
       skip_lb skip_ub abs_tol rel_tol = []
  /\ large_residuals_set (ScalarBlock bd) tol return_residual_values
     = Ok (if return_residual_values then inr [] else inl [])
  /\ number_large_residuals (ScalarBlock bd) tol = Ok 0
  /\ degrees_of_freedom (ScalarBlock bd)
     = (Z.of_nat (number_of_unfixed_greybox_variables (ScalarBlock bd))
        - Z.of_nat (number_activated_greybox_equalities (ScalarBlock bd)))%Z
  /\ number_activated_constraints (ScalarBlock bd)
     = length (filter con_active (blk_constraints bd)).
Proof.
  intros Hoff.
  assert (HV : _iter_indexed_block_data_objects (ScalarBlock bd) Var
                 (Some true) true = [])
    by (apply (walk_of_inactive Var), Hoff).
  assert (HC : _iter_indexed_block_data_objects (ScalarBlock bd) Constraint
                 (Some true) true = [])
    by (apply (walk_of_inactive Constraint), Hoff).
  assert (HB : _iter_indexed_block_data_objects (ScalarBlock bd) BlockT
                 (Some true) true = [])
    by (apply (walk_of_inactive BlockT), Hoff).
  assert (HE : activated_equalities_generator (ScalarBlock bd) = [])
    by (unfold activated_equalities_generator; now rewrite HC).
  split.
  { unfold activated_blocks_set. simpl. now rewrite Hoff. }
  split; [exact HE|]. split.
  { unfold activated_inequalities_generator. now rewrite HC. }
  split.
  { unfold variables_set. rewrite HV. simpl.
    apply (fold_add_NoDup VarData_same_spec), NoDup_greybox_variables. }
  split.
  { unfold variables_near_bounds_generator. now rewrite HV. }
  split.
  { unfold large_residuals_set. rewrite HC. simpl.
    destruct return_residual_values; reflexivity. }
  split.
  { unfold number_large_residuals. now rewrite HC. }
  split.
  { unfold degrees_of_freedom, number_unfixed_variables_in_activated_equalities,
      number_activated_equalities, number_of_unfixed_greybox_variables,
      unfixed_variables_in_activated_equalities_set, unfixed_greybox_variables,
      variables_in_activated_equalities_set, count.
    rewrite HE. simpl.
    rewrite (fold_add_NoDup VarData_same_spec)
      by apply NoDup_greybox_variables.
    reflexivity. }
  unfold number_activated_constraints, activated_constraints_generator,
    activated_block_component_generator, count.
  rewrite HB. simpl. rewrite app_nil_r.
  now rewrite component_data_objects_local.
Qed.

(** [model_root_off]: an inactive root that owns two active constraints. *)
Lemma inactive_root_statistics_witness :
  activated_equalities_generator model_root_off = []
  /\ large_residuals_set model_root_off default_residual_tol false = Ok (inl [])
  /\ number_activated_constraints model_root_off = 2.
Proof.
  destruct (@inactive_root_statistics
              (mkBlockData 102 false [x_free; y_free] [c_sum; c_upper] [] [] [])
              default_residual_tol false None None false false
              default_abs_tol default_rel_tol eq_refl)
    as (_ & HE & _ & _ & _ & HL & _ & _ & HN).
  split; [exact HE|]. split; [exact HL | exact HN].
Defined.

(** ** Near bounds: edges *)

Lemma near_a_bound_skipped (t : Q) (v : VarData) (x : Q) :
  near_a_bound true true t v x = false.
Proof.
  unfold near_a_bound. destruct (var_ub v), (var_lb v); reflexivity.
Qed.

Lemma flat_map_nil {A B : Type} (f : A -> list B) (l : list A) :
  (forall x, f x = []) -> flat_map f l = [].
Proof.
  intros H. induction l as [|x l IH]; simpl; [reflexivity|].
  now rewrite H, IH.
Qed.

(** X18: with both bounds skipped no variable is near a bound; whatever the
    arguments, a variable that is yielded has a value and at least one bound
    and belongs to [variables_set], so the count of near-bound variables is at
    most the count of variables. *)
Theorem near_bounds_edges (block : Block) (tol : option Q)
    (relative : option bool) (skip_lb skip_ub : bool) (abs_tol rel_tol : Q) :
  variables_near_bounds_generator block tol relative true true abs_tol rel_tol
  = []
  /\ (forall v,
         In v (variables_near_bounds_set block tol relative skip_lb skip_ub
                 abs_tol rel_tol) ->
         In v (variables_set block)
         /\ var_value v <> None
         /\ (var_lb v <> None \/ var_ub v <> None))
  /\ number_variables_near_bounds block tol abs_tol rel_tol
     <= number_variables block.
Proof.
  assert (Hin : forall sl su v,
             In v (variables_near_bounds_set block tol relative sl su
                     abs_tol rel_tol) ->
             In v (variables_set block)
             /\ var_value v <> None
             /\ (var_lb v <> None \/ var_ub v <> None)).
  { intros sl su v. unfold variables_near_bounds_set.
    rewrite (In_ComponentSet VarData_same_spec), In_variables_near_bounds.
    intros (Hv & x & E & [(u & Eu & _)|(l & El & _)]);
      (split; [apply In_variables_set; now left|]);
      (split; [congruence|]); [right | left]; congruence. }
  split.
  { unfold variables_near_bounds_generator. apply flat_map_nil. intros v.
    destruct (var_value v); [|reflexivity].
    now rewrite near_a_bound_skipped. }
  split; [apply Hin|].
  unfold number_variables_near_bounds, number_variables.
  apply NoDup_incl_length.
  - apply (NoDup_ComponentSet VarData_same_spec).
  - intros v Hv. unfold variables_near_bounds_set in *.
    apply (Hin false false v).
    unfold variables_near_bounds_set.
    rewrite (In_ComponentSet VarData_same_spec) in *.
    rewrite In_variables_near_bounds in *. exact Hv.
Qed.

(** X19: enlarging the absolute tolerance never loses a near-bound variable. *)
Theorem near_bounds_monotone (block : Block) (relative : option bool)
    (skip_lb skip_ub : bool) (abs_tol abs_tol' rel_tol : Q) (v : VarData) :
  (abs_tol <= abs_tol')%Q ->
  In v (variables_near_bounds_generator block None relative skip_lb skip_ub
          abs_tol rel_tol) ->
  In v (variables_near_bounds_generator block None relative skip_lb skip_ub
          abs_tol' rel_tol).
Proof.
  intros Hle. rewrite !In_variables_near_bounds. simpl.
  rewrite !bound_tolerance_spec.
  pose proof (Q.max_le_compat_r abs_tol abs_tol' (spec_magnitude v * rel_tol) Hle)
    as Hmax.
  intros (Hv & x & E & H). split; [exact Hv|]. exists x. split; [exact E|].
  destruct H as [(u & Eu & Hs & Hd)|(l & El & Hs & Hd)]; [left | right].
  - exists u. repeat split; auto. eapply Qle_trans; eassumption.
  - exists l. repeat split; auto. eapply Qle_trans; eassumption.
Qed.

(** The variable of [model_near], found with tolerance 1e-4, is found with
    tolerance 1. *)
Lemma near_bounds_monotone_witness :
  (default_abs_tol <= 1)%Q
  /\ In v_near
        (variables_near_bounds_generator model_near None None false false
           1%Q default_rel_tol).
Proof.
  assert (Hle : (default_abs_tol <= 1)%Q) by discriminate.
  split; [exact Hle|].
  apply (@near_bounds_monotone model_near None false false default_abs_tol
           1%Q default_rel_tol v_near Hle).
  left; reflexivity.
Defined.

(** ** Two models side by side *)








(** ** Counts under an active root *)








(** ** Deactivating a grey box: the counts *)

Lemma generator_deactivate {A : Type} (ct : CType A)
    (g : ExternalGreyBoxBlockData) :
  (forall b, local_components ct (deactivate_greybox_data g b)
             = local_components ct b) ->
  forall block,
    activated_block_component_generator (deactivate_greybox g block) ct
    = activated_block_component_generator block ct.
Proof.
  intros Hlocal block. unfold activated_block_component_generator.
  rewrite (iter_deactivate ct g Hlocal). f_equal.
  assert (L : forall l,
             flat_map (fun b => component_data_objects b ct None false)
                      (map (deactivate_greybox_data g) l)
             = flat_map (fun b => component_data_objects b ct None false) l).
  { intros l. rewrite flat_map_map. apply flat_map_ext. intros b.
    now apply component_data_objects_deactivate. }
  destruct block as [bd|i a values]; simpl.
  - now rewrite sub_blocks_deactivate, L.
  - rewrite flat_map_map, !flat_map_flat_map. apply flat_map_ext. intros bd.
    now rewrite sub_blocks_deactivate, L.
Qed.

Lemma constraints_keep_under_deactivate (g : ExternalGreyBoxBlockData)
    (b : BlockData) :
  local_components Constraint (deactivate_greybox_data g b)
  = local_components Constraint b.
Proof. destruct b; reflexivity. Qed.

(** X22: deactivating an activated grey box lowers
    [number_activated_greybox_equalities], and with it
    [number_total_constraints], [number_total_equalities] and
    [number_activated_equalities], by exactly that box's
    [len(outputs) + n_equality_constraints()]; the inequality counts and
    [number_activated_constraints] do not change. *)
Theorem greybox_deactivation_counts (block : Block)
    (g : ExternalGreyBoxBlockData) :
  In g (activated_greybox_block_set block) ->
  number_activated_greybox_equalities block
  = number_activated_greybox_equalities (deactivate_greybox g block)
    + greybox_contribution g
  /\ number_total_constraints block
     = number_total_constraints (deactivate_greybox g block)
       + greybox_contribution g
  /\ number_total_equalities block
     = number_total_equalities (deactivate_greybox g block)
       + greybox_contribution g
  /\ number_activated_equalities block
     = number_activated_equalities (deactivate_greybox g block)
       + greybox_contribution g
  /\ number_total_inequalities (deactivate_greybox g block)
     = number_total_inequalities block
  /\ number_activated_inequalities (deactivate_greybox g block)
     = number_activated_inequalities block
  /\ number_activated_constraints (deactivate_greybox g block)
     = number_activated_constraints block.
Proof.
  intros Hg.
  assert (P : Permutation (activated_greybox_block_set block)
                (g :: activated_greybox_block_set (deactivate_greybox g block))).
  { apply NoDup_Permutation.
    - apply NoDup_activated_greybox_block_set.
    - constructor; [|apply NoDup_activated_greybox_block_set].
      rewrite In_activated_greybox_after_deactivate. tauto.
    - intros h. simpl. rewrite In_activated_greybox_after_deactivate.
      destruct (same h g) eqn:S.
      + apply GreyBox_same_spec in S. subst h. tauto.
      + assert (h <> g).
        { intros ->. rewrite (proj2 (GreyBox_same_spec g g) eq_refl) in S.
          discriminate. }
        split; [tauto | intros [E|H']; [congruence | tauto]]. }
  assert (E : number_activated_greybox_equalities block
              = number_activated_greybox_equalities (deactivate_greybox g block)
                + greybox_contribution g).
  { rewrite !number_activated_greybox_equalities_sum.
    rewrite (Permutation_list_sum (Permutation_map greybox_contribution P)).
    simpl. lia. }
  pose proof (generator_deactivate Constraint g
                (constraints_keep_under_deactivate g) block) as HG.
  pose proof (iter_deactivate Constraint g
                (constraints_keep_under_deactivate g) block (Some true) true)
    as HW.
  unfold number_total_constraints, number_total_equalities,
    number_activated_equalities, number_total_inequalities,
    number_activated_inequalities, number_activated_constraints,
    total_equalities_generator, activated_equalities_generator,
    total_inequalities_generator, activated_inequalities_generator,
    activated_constraints_generator.
  rewrite HG, HW. repeat split; try reflexivity; lia.
Qed.

(** Deactivating the grey box of [model_grey]: 5 equalities less. *)
Lemma greybox_deactivation_counts_witness :
  In grey (activated_greybox_block_set model_grey)
  /\ number_activated_greybox_equalities model_grey = 5
  /\ number_activated_greybox_equalities (deactivate_greybox grey model_grey) = 0.
Proof.
  assert (Hg : In grey (activated_greybox_block_set model_grey))
    by (left; reflexivity).
  split; [exact Hg|].
  pose proof (proj1 (@greybox_deactivation_counts model_grey grey Hg)) as E.
  split; [reflexivity|].
  change (greybox_contribution grey) with 5 in E.
  change (number_activated_greybox_equalities model_grey) with 5 in E.
  lia.
Defined.
